(** * periodic_table: the colour helper, the range scan and the UI state

    A shallow embedding of [ElementBlock.tsx] and [PeriodicTable.tsx], and
    the properties the specification states about them.

    Conventions of the embedding.
    - A JavaScript [number] is a value of [JS.number]: a finite value is an
      exact rational (binary rounding and the sign of zero are left out), and
      the three special values [Infinity], [-Infinity] and [NaN] are kept,
      since the code reaches them (an empty [Math.min()], a division by a
      range of width zero).
    - [THREE.Color] objects are mutable and live in a heap; [add] and [lerp]
      update their receiver in place, as the library does.
    - A JavaScript object used as a table is a finite map on its own keys. *)

From Stdlib Require Import ZArith QArith Qcanon Qround Ascii DecimalString Lia Lqa.
From stdpp Require Import gmap strings list.

Local Open Scope Z_scope.
Local Open Scope Qc_scope.

(** ** JavaScript numbers *)

Module JS.

Inductive number : Type :=
  | Fin (q : Qc)
  | PosInf
  | NegInf
  | NaN.

Definition is_finite (x : number) : Prop :=
  match x with Fin _ => True | _ => False end.

(** Sign of a number, [Eq] for zero (and for [NaN], never used there). *)
Definition sgn (x : number) : comparison :=
  match x with
  | Fin q => Qccompare q 0
  | PosInf => Gt
  | NegInf => Lt
  | NaN => Eq
  end.

Definition sgn_mul (a b : comparison) : comparison :=
  match a, b with
  | Eq, _ | _, Eq => Eq
  | Gt, c | c, Gt => c
  | Lt, Lt => Gt
  end.

(** The infinity of a given sign; a zero sign is the invalid operation. *)
Definition inf_of_sign (c : comparison) : number :=
  match c with Gt => PosInf | Lt => NegInf | Eq => NaN end.

Definition neg (x : number) : number :=
  match x with
  | Fin q => Fin (- q)
  | PosInf => NegInf
  | NegInf => PosInf
  | NaN => NaN
  end.

Definition add (x y : number) : number :=
  match x, y with
  | NaN, _ | _, NaN => NaN
  | Fin a, Fin b => Fin (a + b)
  | PosInf, NegInf | NegInf, PosInf => NaN
  | PosInf, _ | _, PosInf => PosInf
  | NegInf, _ | _, NegInf => NegInf
  end.

Definition sub (x y : number) : number := add x (neg y).

Definition mul (x y : number) : number :=
  match x, y with
  | NaN, _ | _, NaN => NaN
  | Fin a, Fin b => Fin (a * b)
  | _, _ => inf_of_sign (sgn_mul (sgn x) (sgn y))
  end.

(** [x / y]. A finite non-zero value over zero is an infinity of the sign of
    the numerator, [0 / 0] and [Infinity / Infinity] are [NaN]. *)
Definition div (x y : number) : number :=
  match x, y with
  | NaN, _ | _, NaN => NaN
  | Fin a, Fin b =>
      if decide (b = 0) then inf_of_sign (Qccompare a 0) else Fin (a / b)
  | Fin _, _ => Fin 0
  | _, Fin b => inf_of_sign (sgn_mul (sgn x) (if decide (b < 0) then Lt else Gt))
  | _, _ => NaN
  end.

(** [x <= y] and [x < y]; every comparison with [NaN] is false. *)
Definition leb (x y : number) : bool :=
  match x, y with
  | NaN, _ | _, NaN => false
  | NegInf, _ | _, PosInf => true
  | Fin a, Fin b => bool_decide (a <= b)
  | _, _ => false
  end.

Definition ltb (x y : number) : bool :=
  match x, y with
  | NaN, _ | _, NaN => false
  | PosInf, _ | _, NegInf => false
  | Fin a, Fin b => bool_decide (a < b)
  | _, _ => true
  end.

Definition le (x y : number) : Prop := leb x y = true.
Definition lt (x y : number) : Prop := ltb x y = true.

(** [Math.min(a, b)] and [Math.max(a, b)]: [NaN] as soon as one argument is. *)
Definition Math_min (a b : number) : number :=
  match a, b with
  | NaN, _ | _, NaN => NaN
  | _, _ => if leb a b then a else b
  end.

Definition Math_max (a b : number) : number :=
  match a, b with
  | NaN, _ | _, NaN => NaN
  | _, _ => if leb a b then b else a
  end.

(** [Math.min(...xs)] and [Math.max(...xs)]: with no argument they are
    [Infinity] and [-Infinity]. *)
Definition Math_min_of (xs : list number) : number := foldr Math_min PosInf xs.
Definition Math_max_of (xs : list number) : number := foldr Math_max NegInf xs.

(** [Math.round(x)]: the integer nearest to [x], ties towards [+Infinity]. *)
Definition Math_round (x : number) : number :=
  match x with
  | Fin q => Fin (Q2Qc (inject_Z (Qfloor (this q + (1 # 2)))))
  | _ => x
  end.

(** Truthiness of a number: [0] and [NaN] are falsy. *)
Definition truthy (x : number) : bool :=
  match x with
  | Fin q => negb (bool_decide (q = 0))
  | NaN => false
  | _ => true
  end.

Definition string_of_Z (z : Z) : string := NilZero.string_of_int (Z.to_int z).

(** [String(x)] for the numbers a template literal receives here: integers
    and the special values. A fractional value, which [Math.round] never
    returns, is written through its integer part. *)
Definition to_string (x : number) : string :=
  match x with
  | Fin q => string_of_Z (Qfloor (this q))
  | PosInf => "Infinity"
  | NegInf => "-Infinity"
  | NaN => "NaN"
  end.

End JS.

Abbreviation Fin := JS.Fin.
Abbreviation PosInf := JS.PosInf.
Abbreviation NegInf := JS.NegInf.
Abbreviation NaN := JS.NaN.

(** ** The part of three.js the program uses: [THREE.Color]

    three.js is a dependency of the repository, not part of it. Its [Color]
    class is embedded as the library documents and implements it (release 152
    and later: colour management, [getStyle] rounding each channel). *)

Module THREE.

(** A colour is three channels, held in the working colour space. *)
Record Color : Type := mkColor { r : JS.number; g : JS.number; b : JS.number }.

(** three.js reads a CSS colour as sRGB and converts it to its working colour
    space, and [getStyle] converts back. The two transfer functions are power
    laws of the library, not of this program: they are the parameters of the
    embedding. *)
Class ColorManagement : Type := {
  SRGBToLinear : Qc -> Qc;
  LinearToSRGB : Qc -> Qc
}.

(** With [ColorManagement.enabled = false] the working space is sRGB itself. *)
Definition LegacyColorManagement : ColorManagement :=
  {| SRGBToLinear := fun c => c; LinearToSRGB := fun c => c |}.

(** A transfer function on a channel: the special values pass through. *)
Definition transfer (f : Qc -> Qc) (x : JS.number) : JS.number :=
  match x with Fin q => Fin (f q) | _ => x end.

Definition Qc_of_N (n : N) : Qc := Q2Qc (inject_Z (Z.of_N n)).

Definition hex_digit (c : ascii) : option N :=
  let n := N_of_ascii c in
  if (48 <=? n)%N && (n <=? 57)%N then Some (n - 48)%N
  else if (65 <=? n)%N && (n <=? 70)%N then Some (n - 55)%N
  else if (97 <=? n)%N && (n <=? 102)%N then Some (n - 87)%N
  else None.

(** The digits of a string matching [[A-Fa-f\d]+], most significant first. *)
Fixpoint hex_digits (s : string) : option (list N) :=
  match s with
  | EmptyString => Some []
  | String c s' =>
      match hex_digit c, hex_digits s' with
      | Some d, Some ds => Some (d :: ds)
      | _, _ => None
      end
  end.

(** [parseInt(hex, 16)] on such a string. *)
Definition parseInt16 (ds : list N) : N := foldl (fun acc d => 16 * acc + d)%N 0%N ds.

Section WithColorManagement.
Context `{CM : ColorManagement}.

(** [setRGB(r, g, b, SRGBColorSpace)] on a fresh colour. *)
Definition setRGB (x y z : Qc) : Color :=
  mkColor (Fin (SRGBToLinear x)) (Fin (SRGBToLinear y)) (Fin (SRGBToLinear z)).

(** [setHex(hex)]: one byte per channel. *)
Definition setHex (hex : N) : Color :=
  setRGB (Qc_of_N (N.land (N.shiftr hex 16) 255) / Qc_of_N 255)
         (Qc_of_N (N.land (N.shiftr hex 8) 255) / Qc_of_N 255)
         (Qc_of_N (N.land hex 255) / Qc_of_N 255).

(** What the constructor leaves when the style sets nothing. *)
Definition white : Color := mkColor (Fin 1) (Fin 1) (Fin 1).

(** [new THREE.Color(style)] for the hexadecimal styles, [#rgb] and [#rrggbb]:
    a hexadecimal string of another length is rejected with a warning and the
    colour stays white. Functional notations and colour names, which this
    program never passes, are not modelled and read as white too. *)
Definition Color_of_style (style : string) : Color :=
  match style with
  | String "#" hex =>
      match hex_digits hex with
      | Some [d1; d2; d3] =>
          setRGB (Qc_of_N d1 / Qc_of_N 15) (Qc_of_N d2 / Qc_of_N 15) (Qc_of_N d3 / Qc_of_N 15)
      | Some ([_; _; _; _; _; _] as ds) => setHex (parseInt16 ds)
      | _ => white
      end
  | _ => white
  end.

(** [this.r += color.r] and so on. *)
Definition Color_add (c k : Color) : Color :=
  mkColor (JS.add (r c) (r k)) (JS.add (g c) (g k)) (JS.add (b c) (b k)).

(** [this.r += (color.r - this.r) * alpha] and so on. *)
Definition Color_lerp (c k : Color) (alpha : JS.number) : Color :=
  mkColor (JS.add (r c) (JS.mul (JS.sub (r k) (r c)) alpha))
          (JS.add (g c) (JS.mul (JS.sub (g k) (g c)) alpha))
          (JS.add (b c) (JS.mul (JS.sub (b k) (b c)) alpha)).

Definition channel_style (x : JS.number) : string :=
  JS.to_string (JS.Math_round (JS.mul (transfer LinearToSRGB x) (Fin (Qc_of_N 255)))).

(** [getStyle()]: the channels back in sRGB, as [rgb(R,G,B)]. *)
Definition Color_style (c : Color) : string :=
  "rgb(" +:+ channel_style (r c) +:+ "," +:+ channel_style (g c) +:+ ","
         +:+ channel_style (b c) +:+ ")".

End WithColorManagement.

(** *** Objects

    A [THREE.Color] is an object: a location in a heap. A computation threads
    the heap and fails ([None]) where JavaScript would throw. *)

Definition loc : Type := nat.
Abbreviation heap := (list Color).
Definition M (A : Type) : Type := heap -> option (A * heap).

Definition ret {A} (a : A) : M A := fun h => Some (a, h).
Definition bind {A B} (m : M A) (k : A -> M B) : M B :=
  fun h => match m h with Some (a, h') => k a h' | None => None end.
Definition throw {A} : M A := fun _ => None.

Declare Scope heap_scope.
Delimit Scope heap_scope with heap.
Notation "'let*' x := m 'in' k" := (bind m (fun x => k))
  (at level 10, x name, m at level 100, k at level 200) : heap_scope.
Local Open Scope heap_scope.

Definition alloc (c : Color) : M loc := fun h => Some (List.length h, h ++ [c]).
Definition deref (l : loc) : M Color :=
  fun h => match h !! l with Some c => Some (c, h) | None => None end.
Definition assign (l : loc) (c : Color) : M unit :=
  fun h => if decide (l < List.length h)%nat then Some (tt, <[l := c]> h) else None.

Section Methods.
Context `{CM : ColorManagement}.

Definition new_Color (style : string) : M loc := alloc (Color_of_style style).

Definition clone (self : loc) : M loc :=
  let* c := deref self in alloc c.

(** [add] and [lerp] write their receiver and return it. *)
Definition add (self color : loc) : M loc :=
  let* c := deref self in
  let* k := deref color in
  let* _ := assign self (Color_add c k) in
  ret self.

Definition lerp (self color : loc) (alpha : JS.number) : M loc :=
  let* c := deref self in
  let* k := deref color in
  let* _ := assign self (Color_lerp c k alpha) in
  ret self.

Definition getStyle (self : loc) : M string :=
  let* c := deref self in ret (Color_style c).

End Methods.

End THREE.

Import THREE.
Local Open Scope heap_scope.

(** ** ElementBlock.tsx: data *)

Record ElementData : Type := {
  name : string;
  symbol : string;
  number : Z;
  xpos : Z;
  ypos : Z;
  category : string;
  cpk_hex : option string;
  atomic_mass : Qc;
  phase : string;
  block : string;
  summary : string;
  melt : option Qc;
  boil : option Qc;
  density : option Qc;
  electronegativity_pauling : option Qc;
  ionization_energies : list Qc;
  electron_affinity : option Qc
}.

(** The colour modes, named as the strings they are in the source. *)
Module ColorMode.
Inductive t : Type :=
  | category
  | phase
  | block
  | cpk
  | atomic_mass
  | density
  | electronegativity
  | ionization
  | electron_affinity.

Definition key (m : t) : string :=
  match m with
  | category => "category"
  | phase => "phase"
  | block => "block"
  | cpk => "cpk"
  | atomic_mass => "atomic_mass"
  | density => "density"
  | electronegativity => "electronegativity"
  | ionization => "ionization"
  | electron_affinity => "electron_affinity"
  end.
End ColorMode.

Definition categoryColors : gmap string string :=
  list_to_map [
    ("diatomic nonmetal", "#00f2ff");
    ("noble gas", "#bf00ff");
    ("alkali metal", "#ff0055");
    ("alkaline earth metal", "#ffaa00");
    ("metalloid", "#00ff88");
    ("polyatomic nonmetal", "#00ccff");
    ("post-transition metal", "#5de2ff");
    ("transition metal", "#ffea00");
    ("lanthanide", "#ff00ff");
    ("actinide", "#ff5500")
  ].

Definition phaseColors : gmap string string :=
  list_to_map [
    ("Gas", "#ff00ff");
    ("Solid", "#00f2ff");
    ("Liquid", "#00ff88");
    ("Unknown", "#444444")
  ].

Definition blockColors : gmap string string :=
  list_to_map [
    ("s", "#ff0055");
    ("p", "#00f2ff");
    ("d", "#ffea00");
    ("f", "#bf00ff")
  ].

(** The three tables are object literals: besides their own keys they answer
    the names every object inherits from [Object.prototype]. *)
Definition Object_prototype : list string :=
  [ "constructor"; "__defineGetter__"; "__defineSetter__"; "hasOwnProperty";
    "__lookupGetter__"; "__lookupSetter__"; "isPrototypeOf"; "propertyIsEnumerable";
    "toString"; "valueOf"; "__proto__"; "toLocaleString" ].

(** What the [color] memo evaluates to: a string, or the member of
    [Object.prototype] of a given name (a function, the prototype itself for
    [__proto__]), which is truthy and is not a string. *)
Inductive Value : Type :=
  | Str (s : string)
  | Inherited (name : string).

(** [table[key]]; [None] is [undefined]. *)
Definition index (table : gmap string string) (key : string) : option Value :=
  match table !! key with
  | Some s => Some (Str s)
  | None => if decide (key ∈ Object_prototype) then Some (Inherited key) else None
  end.

(** [x || d]: [undefined] and the empty string are falsy. *)
Definition value_or (x : option Value) (d : string) : Value :=
  match x with
  | Some (Str s) => if decide (s = "") then Str d else Str s
  | Some (Inherited name) => Inherited name
  | None => Str d
  end.

(** [x || 0] on an optional number. *)
Definition num_or_0 (x : option Qc) : JS.number :=
  match x with
  | Some q => if JS.truthy (Fin q) then Fin q else Fin 0
  | None => Fin 0
  end.

(** ** ElementBlock.tsx: colours *)

(** The local [t] of [interpolateColor]. *)
Definition interpolation_t (val min max : JS.number) : JS.number :=
  JS.Math_max (Fin 0) (JS.Math_min (Fin 1) (JS.div (JS.sub val min) (JS.sub max min))).

Section Colours.
Context `{CM : ColorManagement}.

Definition interpolateColor (val min max : JS.number) (colorLow colorHigh : string)
  : M string :=
  let t := interpolation_t val min max in
  let* c1 := new_Color colorLow in
  let* c2 := new_Color colorHigh in
  let* cl := clone c1 in
  let* k := new_Color "#111122" in
  let* mixedLow := add cl k in
  let* mixed := lerp mixedLow c2 t in
  getStyle mixed.

(** A string computed on the heap, as a value. *)
Definition as_value (m : M string) : M Value :=
  let* s := m in ret (Str s).

(** [ranges.key]: reading an entry of [ranges]; indexing a missing entry
    throws. *)
Definition range (ranges : gmap string (JS.number * JS.number)) (key : string)
  : M (JS.number * JS.number) :=
  match ranges !! key with
  | Some p => ret p
  | None => throw
  end.

(** The [color] memo of [ElementBlock]. The [default] branch of the source's
    [switch] is not represented: [ColorMode.t] has no tenth value. *)
Definition color (colorMode : ColorMode.t) (element : ElementData)
    (ranges : gmap string (JS.number * JS.number)) : M Value :=
  match colorMode with
  | ColorMode.category => ret (value_or (index categoryColors (category element)) "#444444")
  | ColorMode.phase => ret (value_or (index phaseColors (phase element)) "#444444")
  | ColorMode.block => ret (value_or (index blockColors (block element)) "#444444")
  | ColorMode.cpk =>
      ret (Str (match cpk_hex element with
                | Some hex => if decide (hex = "") then "#444444" else "#" +:+ hex
                | None => "#444444"
                end))
  | ColorMode.atomic_mass =>
      let* p := range ranges "atomic_mass" in
      as_value (interpolateColor (Fin (atomic_mass element)) p.1 p.2
                  "#222244" "#e94560")
  | ColorMode.density =>
      let* p := range ranges "density" in
      as_value (interpolateColor (num_or_0 (density element)) p.1 p.2
                  "#222244" "#00d2ff")
  | ColorMode.electronegativity =>
      let* p := range ranges "electronegativity" in
      as_value (interpolateColor (num_or_0 (electronegativity_pauling element)) p.1 p.2
                  "#222244" "#f9d423")
  | ColorMode.ionization =>
      let* p := range ranges "ionization" in
      as_value (interpolateColor (num_or_0 (head (ionization_energies element))) p.1 p.2
                  "#222244" "#a8ff78")
  | ColorMode.electron_affinity =>
      let* p := range ranges "electron_affinity" in
      as_value (interpolateColor (num_or_0 (electron_affinity element)) p.1 p.2
                  "#222244" "#ff0080")
  end.

End Colours.

(** The value of a computation that starts with no object allocated. *)
Definition eval {A} (m : M A) : option A := fst <$> m [].

(** ** PeriodicTable.tsx: component state *)

(** The [useState] cells of [PeriodicTableScene]. *)
Record State : Type := {
  elements : list ElementData;
  hoveredElementId : option Z;
  selectedElementId : option Z;
  colorMode : ColorMode.t;
  loading : bool;
  error : option string;
  isMobile : bool;
  showDropdown : bool
}.

Definition initial : State :=
  {| elements := []; hoveredElementId := None; selectedElementId := None;
     colorMode := ColorMode.category; loading := true; error := None;
     isMobile := false; showDropdown := false |}.

Definition setElements (v : list ElementData) (s : State) : State :=
  {| elements := v; hoveredElementId := hoveredElementId s;
     selectedElementId := selectedElementId s; colorMode := colorMode s;
     loading := loading s; error := error s; isMobile := isMobile s;
     showDropdown := showDropdown s |}.

Definition setHoveredElementId (v : option Z) (s : State) : State :=
  {| elements := elements s; hoveredElementId := v;
     selectedElementId := selectedElementId s; colorMode := colorMode s;
     loading := loading s; error := error s; isMobile := isMobile s;
     showDropdown := showDropdown s |}.

Definition setSelectedElementId (v : option Z) (s : State) : State :=
  {| elements := elements s; hoveredElementId := hoveredElementId s;
     selectedElementId := v; colorMode := colorMode s;
     loading := loading s; error := error s; isMobile := isMobile s;
     showDropdown := showDropdown s |}.

Definition setColorMode (v : ColorMode.t) (s : State) : State :=
  {| elements := elements s; hoveredElementId := hoveredElementId s;
     selectedElementId := selectedElementId s; colorMode := v;
     loading := loading s; error := error s; isMobile := isMobile s;
     showDropdown := showDropdown s |}.

Definition setLoading (v : bool) (s : State) : State :=
  {| elements := elements s; hoveredElementId := hoveredElementId s;
     selectedElementId := selectedElementId s; colorMode := colorMode s;
     loading := v; error := error s; isMobile := isMobile s;
     showDropdown := showDropdown s |}.

Definition setError (v : option string) (s : State) : State :=
  {| elements := elements s; hoveredElementId := hoveredElementId s;
     selectedElementId := selectedElementId s; colorMode := colorMode s;
     loading := loading s; error := v; isMobile := isMobile s;
     showDropdown := showDropdown s |}.

Definition setIsMobile (v : bool) (s : State) : State :=
  {| elements := elements s; hoveredElementId := hoveredElementId s;
     selectedElementId := selectedElementId s; colorMode := colorMode s;
     loading := loading s; error := error s; isMobile := v;
     showDropdown := showDropdown s |}.

Definition setShowDropdown (v : bool) (s : State) : State :=
  {| elements := elements s; hoveredElementId := hoveredElementId s;
     selectedElementId := selectedElementId s; colorMode := colorMode s;
     loading := loading s; error := error s; isMobile := isMobile s;
     showDropdown := v |}.

(** ** ElementBlock.tsx: pointer handlers *)

(** [id === element.number]. *)
Definition is_id (id : option Z) (element : ElementData) : bool :=
  bool_decide (id = Some (number element)).

Definition isSelected (s : State) (element : ElementData) : bool :=
  is_id (selectedElementId s) element.
Definition isHovered (s : State) (element : ElementData) : bool :=
  is_id (hoveredElementId s) element.
Definition isEffectivelyActive (s : State) (element : ElementData) : bool :=
  isSelected s element || isHovered s element.

(** [!id] on an id: [null] and [0] are falsy. *)
Definition falsy_id (id : option Z) : bool :=
  match id with
  | None => true
  | Some n => bool_decide (n = 0%Z)
  end.

Definition onClick (element : ElementData) (s : State) : State :=
  let newId := if isSelected s element then None else Some (number element) in
  setHoveredElementId None (setSelectedElementId newId s).

(** [hasMouse] is the block's own cell, set from [(pointer: fine)]. *)
Definition onPointerOver (hasMouse : bool) (element : ElementData) (s : State) : State :=
  if hasMouse && falsy_id (selectedElementId s)
  then setHoveredElementId (Some (number element)) s
  else s.

Definition onPointerOut (hasMouse : bool) (s : State) : State :=
  if hasMouse then setHoveredElementId None s else s.

(** ** PeriodicTable.tsx: handlers *)

Definition resetScene (s : State) : State :=
  setColorMode ColorMode.category
    (setHoveredElementId None (setSelectedElementId None s)).

Definition onPointerMissed (s : State) : State :=
  setHoveredElementId None (setSelectedElementId None s).

(** [onClick] of the outer [div]. *)
Definition onClickOutside (s : State) : State :=
  if showDropdown s then setShowDropdown false s else s.

Definition handleResize (innerWidth : Z) (s : State) : State :=
  setIsMobile (bool_decide (innerWidth < 768)%Z) s.

Definition toggleDropdown (s : State) : State :=
  setShowDropdown (negb (showDropdown s)) s.

Definition pickMode (item : ColorMode.t) (s : State) : State :=
  setShowDropdown false (setColorMode item s).

(** What the user and the browser can do once the component is mounted. A
    click inside the canvas also reaches the outer [div]; the two clicks of the
    drop-down stop there. *)
Inductive Event : Type :=
  | Click (element : ElementData)
  | PointerOver (hasMouse : bool) (element : ElementData)
  | PointerOut (hasMouse : bool)
  | PointerMissed
  | ClickReset
  | ClickOutside
  | Resize (innerWidth : Z)
  | ToggleDropdown
  | PickMode (item : ColorMode.t).

Definition handle (ev : Event) (s : State) : State :=
  match ev with
  | Click element => onClickOutside (onClick element s)
  | PointerOver hasMouse element => onPointerOver hasMouse element s
  | PointerOut hasMouse => onPointerOut hasMouse s
  | PointerMissed => onClickOutside (onPointerMissed s)
  | ClickReset => onClickOutside (resetScene s)
  | ClickOutside => onClickOutside s
  | Resize w => handleResize w s
  | ToggleDropdown => toggleDropdown s
  | PickMode item => pickMode item s
  end.

(** An event on a block comes from a block that is rendered: its element is
    one of [elements]. *)
Definition event_ok (s : State) (ev : Event) : Prop :=
  match ev with
  | Click element | PointerOver _ element => element ∈ elements s
  | _ => True
  end.

(** The states the handlers reach from [s0]. *)
Inductive reachable (s0 : State) : State -> Prop :=
  | reachable_start : reachable s0 s0
  | reachable_step s ev :
      reachable s0 s -> event_ok s ev -> reachable s0 (handle ev s).

(** ** PeriodicTable.tsx: the ranges memo *)

(** [x!] where a number is expected: [Math.min] reads [null] as [0] and
    [undefined] as [NaN]. After the filters neither is met. *)
Definition non_null (x : option Qc) : JS.number :=
  match x with Some q => Fin q | None => Fin 0 end.
Definition first_or_undefined (xs : list Qc) : JS.number :=
  match xs with q :: _ => Fin q | [] => NaN end.

Definition ranges (elements : list ElementData) : gmap string (JS.number * JS.number) :=
  if decide (List.length elements = 0%nat) then ∅ else
  let result : gmap string (JS.number * JS.number) := ∅ in
  let result :=
    <["atomic_mass" :=
       (JS.Math_min_of ((fun e => Fin (atomic_mass e)) <$> elements),
        JS.Math_max_of ((fun e => Fin (atomic_mass e)) <$> elements))]> result in
  let result :=
    <["density" :=
       (JS.Math_min_of ((fun e => non_null (density e))
                          <$> filter (fun e => density e <> None) elements),
        JS.Math_max_of ((fun e => non_null (density e))
                          <$> filter (fun e => density e <> None) elements))]> result in
  let result :=
    <["electronegativity" :=
       (JS.Math_min_of ((fun e => non_null (electronegativity_pauling e))
                          <$> filter (fun e => electronegativity_pauling e <> None) elements),
        JS.Math_max_of ((fun e => non_null (electronegativity_pauling e))
                          <$> filter (fun e => electronegativity_pauling e <> None) elements))]>
      result in
  let result :=
    <["ionization" :=
       (JS.Math_min_of ((fun e => first_or_undefined (ionization_energies e))
                          <$> filter (fun e => (0 < List.length (ionization_energies e))%nat) elements),
        JS.Math_max_of ((fun e => first_or_undefined (ionization_energies e))
                          <$> filter (fun e => (0 < List.length (ionization_energies e))%nat) elements))]>
      result in
  let result :=
    <["electron_affinity" :=
       (JS.Math_min_of ((fun e => non_null (electron_affinity e))
                          <$> filter (fun e => electron_affinity e <> None) elements),
        JS.Math_max_of ((fun e => non_null (electron_affinity e))
                          <$> filter (fun e => electron_affinity e <> None) elements))]>
      result in
  result.

(** ** PeriodicTable.tsx: loading *)

(** A JSON value, and [undefined] for what an object does not hold. *)
#[local] Unset Elimination Schemes.
Inductive jsval : Type :=
  | JUndefined
  | JNull
  | JBool (v : bool)
  | JNum (x : Qc)
  | JStr (s : string)
  | JArr (xs : list jsval)
  | JObj (fields : list (string * jsval)).
#[local] Set Elimination Schemes.

(** [el[key]] *)
Definition get (el : gmap string jsval) (key : string) : jsval :=
  default JUndefined (el !! key).

(** [{ ...el, cpk_hex: el['cpk-hex'] }] *)
Definition mapElement (el : gmap string jsval) : gmap string jsval :=
  <["cpk_hex" := get el "cpk-hex"]> el.

Definition mappedElements (data_elements : list (gmap string jsval))
  : list (gmap string jsval) :=
  mapElement <$> data_elements.

(** How [fetch('/PeriodicTableJSON.json')] ends: the promise is rejected, or
    it resolves to a response whose body either yields [data.elements] or
    makes the second [then] throw (a body that is not JSON, no [elements]
    array). *)
Inductive FetchOutcome : Type :=
  | Rejected (message : string)
  | Resolved (ok : bool) (status : Z) (body : string + list (gmap string jsval)).

(** [setElements(mappedElements)] stores the objects under the type
    [ElementData[]], which TypeScript does not check. The embedding follows
    the declaration: an object is read as the [ElementData] it is when each
    field is there with its declared type ([number], [xpos] and [ypos] being
    whole numbers, as the record of the embedding holds them), and is no
    [ElementData] otherwise. *)
Definition read_string (v : jsval) : option string :=
  match v with JStr s => Some s | _ => None end.

Definition read_number (v : jsval) : option Qc :=
  match v with JNum x => Some x | _ => None end.

Definition read_integer (v : jsval) : option Z :=
  match v with
  | JNum x => if decide (Qden (this x) = 1%positive) then Some (Qnum (this x)) else None
  | _ => None
  end.

Definition read_nullable {A} (read : jsval -> option A) (v : jsval) : option (option A) :=
  match v with
  | JNull => Some None
  | _ => Some <$> read v
  end.

Definition read_numbers (v : jsval) : option (list Qc) :=
  match v with JArr xs => mapM read_number xs | _ => None end.

Definition asElementData (el : gmap string jsval) : option ElementData :=
  v_name ← el !! "name" ≫= read_string;
  v_symbol ← el !! "symbol" ≫= read_string;
  v_number ← el !! "number" ≫= read_integer;
  v_xpos ← el !! "xpos" ≫= read_integer;
  v_ypos ← el !! "ypos" ≫= read_integer;
  v_category ← el !! "category" ≫= read_string;
  v_cpk_hex ← el !! "cpk_hex" ≫= read_nullable read_string;
  v_atomic_mass ← el !! "atomic_mass" ≫= read_number;
  v_phase ← el !! "phase" ≫= read_string;
  v_block ← el !! "block" ≫= read_string;
  v_summary ← el !! "summary" ≫= read_string;
  v_melt ← el !! "melt" ≫= read_nullable read_number;
  v_boil ← el !! "boil" ≫= read_nullable read_number;
  v_density ← el !! "density" ≫= read_nullable read_number;
  v_electronegativity ← el !! "electronegativity_pauling" ≫= read_nullable read_number;
  v_ionization ← el !! "ionization_energies" ≫= read_numbers;
  v_electron_affinity ← el !! "electron_affinity" ≫= read_nullable read_number;
  Some {| name := v_name; symbol := v_symbol; number := v_number; xpos := v_xpos;
          ypos := v_ypos; category := v_category; cpk_hex := v_cpk_hex;
          atomic_mass := v_atomic_mass; phase := v_phase; block := v_block;
          summary := v_summary; melt := v_melt; boil := v_boil; density := v_density;
          electronegativity_pauling := v_electronegativity;
          ionization_energies := v_ionization;
          electron_affinity := v_electron_affinity |}.

(** The fetch effect, run once when the component mounts (its dependency list
    is empty). [None] is a document some record of which is no [ElementData]:
    the code stores it all the same, and what it does from there on (the
    [ranges] memo throws on a record without [ionization_energies], for one)
    is outside the embedding, whose state holds typed records. *)
Definition fetchEffect (outcome : FetchOutcome) (s : State) : option State :=
  match outcome with
  | Rejected message => Some (setLoading false (setError (Some message) s))
  | Resolved false status _ =>
      Some (setLoading false
              (setError (Some ("HTTP error! status: " +:+ JS.string_of_Z status)) s))
  | Resolved true _ (inl message) => Some (setLoading false (setError (Some message) s))
  | Resolved true _ (inr data_elements) =>
      typed ← mapM asElementData (mappedElements data_elements);
      Some (setLoading false (setElements typed s))
  end.

(** A fetch that fails: the cases that end in the [catch]. *)
Definition failure_message (outcome : FetchOutcome) : option string :=
  match outcome with
  | Rejected message => Some message
  | Resolved false status _ => Some ("HTTP error! status: " +:+ JS.string_of_Z status)
  | Resolved true _ (inl message) => Some message
  | Resolved true _ (inr _) => None
  end.

(** ** PeriodicTable.tsx: what is rendered *)

Record PropertyConfig : Type := { label : string; low : string; high : string }.

Definition propertyConfigs : gmap string PropertyConfig :=
  list_to_map [
    ("atomic_mass", {| label := "Atomic Mass"; low := "#1a1a2e"; high := "#e94560" |});
    ("density", {| label := "Density"; low := "#1a1a2e"; high := "#00d2ff" |});
    ("electronegativity",
       {| label := "Electronegativity"; low := "#1a1a2e"; high := "#f9d423" |});
    ("ionization", {| label := "Ionization Enthalpy"; low := "#1a1a2e"; high := "#a8ff78" |});
    ("electron_affinity",
       {| label := "Electron Affinity"; low := "#1a1a2e"; high := "#ff0080" |})
  ].

(** [a || b] on ids. *)
Definition id_or (a b : option Z) : option Z := if falsy_id a then b else a.

Definition activeElementId (s : State) : option Z :=
  id_or (hoveredElementId s) (selectedElementId s).

Definition displayElement (s : State) : option ElementData :=
  find (fun e => is_id (activeElementId s) e) (elements s).

(** [str.replace(c, d)] with a one-character pattern: the first occurrence. *)
Fixpoint replace_first (c d : ascii) (str : string) : string :=
  match str with
  | EmptyString => EmptyString
  | String x rest =>
      if Ascii.eqb x c then String d rest else String x (replace_first c d rest)
  end.

(** One [ElementBlock]: its element, its colour ([None] if computing it
    throws) and whether it is raised and lit. *)
Record BlockView : Type := {
  block_element : ElementData;
  block_color : option Value;
  block_active : bool
}.

(** The legend: label, gradient ends, and the two numbers it prints with
    [toFixed(1)] when [ranges] has them. *)
Record LegendView : Type := {
  legend_label : string;
  legend_low : string;
  legend_high : string;
  legend_min : option JS.number;
  legend_max : option JS.number
}.

(** The parts of the output that depend on the state; styling and the fixed
    texts and links are left out. *)
Inductive View : Type :=
  | LoadingScreen
  | Table (blocks : list BlockView) (mobile : bool) (modeLabel : string)
          (dropdownOpen : bool) (legend : option LegendView)
          (details : option ElementData).

Section Render.
Context `{CM : ColorManagement}.

Definition renderBlock (s : State) (ranges : gmap string (JS.number * JS.number))
    (element : ElementData) : BlockView :=
  {| block_element := element;
     block_color := eval (color (colorMode s) element ranges);
     block_active := isEffectivelyActive s element |}.

Definition renderLegend (s : State) (ranges : gmap string (JS.number * JS.number))
  : option LegendView :=
  match propertyConfigs !! ColorMode.key (colorMode s) with
  | Some activeProperty =>
      Some {| legend_label := label activeProperty;
              legend_low := low activeProperty;
              legend_high := high activeProperty;
              legend_min := fst <$> ranges !! ColorMode.key (colorMode s);
              legend_max := snd <$> ranges !! ColorMode.key (colorMode s) |}
  | None => None
  end.

(** The output, given the value of the [ranges] memo. *)
Definition renderWith (ranges : gmap string (JS.number * JS.number)) (s : State) : View :=
  if loading s then LoadingScreen
  else Table (renderBlock s ranges <$> elements s) (isMobile s)
             (replace_first "_" " " (ColorMode.key (colorMode s)))
             (showDropdown s) (renderLegend s ranges) (displayElement s).

Definition render (s : State) : View := renderWith (ranges (elements s)) s.

End Render.

(** ** Notions the properties are stated with *)

(** [m] returns [a] on every heap. *)
Definition returns {A} (m : M A) (a : A) : Prop :=
  forall h : heap, fst <$> m h = Some a.

(** The colour [interpolateColor] ends with, before it is printed. *)
Definition mixed `{CM : ColorManagement}
    (val min max : JS.number) (colorLow colorHigh : string) : Color :=
  Color_lerp (Color_add (Color_of_style colorLow) (Color_of_style "#111122"))
             (Color_of_style colorHigh) (interpolation_t val min max).

Definition finite_color (c : Color) : Prop :=
  exists x y z : Qc, c = mkColor (Fin x) (Fin y) (Fin z).

(** The numeric colour modes, and the value of an element in such a mode:
    [None] when the record has none. *)
Definition numeric (m : ColorMode.t) : bool :=
  match m with
  | ColorMode.atomic_mass | ColorMode.density | ColorMode.electronegativity
  | ColorMode.ionization | ColorMode.electron_affinity => true
  | _ => false
  end.

Definition property_value (m : ColorMode.t) (e : ElementData) : option Qc :=
  match m with
  | ColorMode.atomic_mass => Some (atomic_mass e)
  | ColorMode.density => density e
  | ColorMode.electronegativity => electronegativity_pauling e
  | ColorMode.ionization => head (ionization_energies e)
  | ColorMode.electron_affinity => electron_affinity e
  | _ => None
  end.

(** The values of the records that have one, in list order. *)
Definition present_values (m : ColorMode.t) (es : list ElementData) : list Qc :=
  omap (property_value m) es.

(** [a] is the least and [b] the greatest of [xs]. *)
Definition least (a : Qc) (xs : list Qc) : Prop :=
  a ∈ xs /\ forall x, x ∈ xs -> a <= x.
Definition greatest (b : Qc) (xs : list Qc) : Prop :=
  b ∈ xs /\ forall x, x ∈ xs -> x <= b.

(** The high colour of a numeric mode in [color]. *)
Definition colorHigh_of (m : ColorMode.t) : string :=
  match m with
  | ColorMode.atomic_mass => "#e94560"
  | ColorMode.density => "#00d2ff"
  | ColorMode.electronegativity => "#f9d423"
  | ColorMode.ionization => "#a8ff78"
  | ColorMode.electron_affinity => "#ff0080"
  | _ => "#ffffff"
  end.

(** The same colours as [getStyle] prints them. *)
Definition high_style (m : ColorMode.t) : string :=
  match m with
  | ColorMode.atomic_mass => "rgb(233,69,96)"
  | ColorMode.density => "rgb(0,210,255)"
  | ColorMode.electronegativity => "rgb(249,212,35)"
  | ColorMode.ionization => "rgb(168,255,120)"
  | ColorMode.electron_affinity => "rgb(255,0,128)"
  | _ => "rgb(255,255,255)"
  end.

(** A record for the examples: number [n], density [d], and nothing else to
    tell it apart. *)
Definition sample (n : Z) (d : option Z) : ElementData :=
  {| name := "Sample"; symbol := "Sa"; number := n; xpos := n; ypos := 1%Z;
     category := "noble gas"; cpk_hex := None; atomic_mass := Q2Qc (inject_Z n);
     phase := "Gas"; block := "s"; summary := "";
     melt := None; boil := None; density := (fun z => Q2Qc (inject_Z z)) <$> d;
     electronegativity_pauling := None; ionization_energies := [];
     electron_affinity := None |}.

(** A record for the examples, of a given category. *)
Definition sample_in (c : string) : ElementData :=
  {| name := "Sample"; symbol := "Sa"; number := 1%Z; xpos := 1%Z; ypos := 1%Z;
     category := c; cpk_hex := None; atomic_mass := 1;
     phase := "Gas"; block := "s"; summary := "";
     melt := None; boil := None; density := None;
     electronegativity_pauling := None; ionization_energies := [];
     electron_affinity := None |}.

(** The value [color] interpolates in a numeric mode. *)
Definition interpolated_value (m : ColorMode.t) (e : ElementData) : JS.number :=
  match m with
  | ColorMode.atomic_mass => Fin (atomic_mass e)
  | _ => num_or_0 (property_value m e)
  end.

(** What holds of the two ids in every state the handlers reach. *)
Definition ids_ok (s : State) : Prop :=
  (forall n, selectedElementId s = Some n -> exists e, e ∈ elements s /\ number e = n) /\
  (selectedElementId s <> None -> hoveredElementId s = None).

(** A record as the document has it, and the [ElementData] it is once
    normalised. *)
Definition hydrogen_json : gmap string jsval :=
  list_to_map [
    ("name", JStr "Hydrogen");
    ("symbol", JStr "H");
    ("number", JNum 1);
    ("xpos", JNum 1);
    ("ypos", JNum 1);
    ("category", JStr "diatomic nonmetal");
    ("cpk-hex", JStr "ffffff");
    ("atomic_mass", JNum (Q2Qc 1.008%Q));
    ("phase", JStr "Gas");
    ("block", JStr "s");
    ("summary", JStr "Hydrogen is a chemical element.");
    ("melt", JNum (Q2Qc 13.99%Q));
    ("boil", JNum (Q2Qc 20.271%Q));
    ("density", JNum (Q2Qc 0.08988%Q));
    ("electronegativity_pauling", JNum (Q2Qc 2.2%Q));
    ("ionization_energies", JArr [JNum (Q2Qc 1312%Q)]);
    ("electron_affinity", JNum (Q2Qc 72.769%Q))
  ].

Definition hydrogen : ElementData :=
  {| name := "Hydrogen"; symbol := "H"; number := 1%Z; xpos := 1%Z; ypos := 1%Z;
     category := "diatomic nonmetal"; cpk_hex := Some "ffffff";
     atomic_mass := Q2Qc 1.008%Q;
     phase := "Gas"; block := "s"; summary := "Hydrogen is a chemical element.";
     melt := Some (Q2Qc 13.99%Q); boil := Some (Q2Qc 20.271%Q);
     density := Some (Q2Qc 0.08988%Q);
     electronegativity_pauling := Some (Q2Qc 2.2%Q);
     ionization_energies := [Q2Qc 1312%Q];
     electron_affinity := Some (Q2Qc 72.769%Q) |}.

(** The state once the sample records are loaded. *)
Definition loaded (es : list ElementData) : State :=
  setLoading false (setElements es initial).

(** ** ElementBlock.tsx: placement and animation *)

Definition Qc_of_Z (z : Z) : Qc := Q2Qc (inject_Z z).

(** The [position] of the group of a block. *)
Definition position (element : ElementData) : Qc * Qc * Qc :=
  ((Qc_of_Z (xpos element) - Qc_of_Z 9) * Q2Qc 1.3%Q,
   (Qc_of_Z 5 - Qc_of_Z (ypos element)) * Q2Qc 1.3%Q,
   0).

(** The side of the box, [args={[1.1, 1.1, 1.1]}]. *)
Definition boxSize : Qc := Q2Qc 1.1%Q.

(** [THREE.MathUtils.lerp(x, y, t)] *)
Definition MathUtils_lerp (x y t : Qc) : Qc := (1 - t) * x + t * y.

(** What [useFrame] reads and writes of the mesh: [position.z], and the
    scale, which [setScalar] sets on the three axes and [scale.x] reads. *)
Record Mesh : Type := { position_z : Qc; scale : Qc }.

(** A mesh as it is mounted. *)
Definition mounted : Mesh := {| position_z := 0; scale := 1 |}.

Definition targetZ (active : bool) : Qc := if active then Q2Qc 0.6%Q else 0.
Definition targetScale (active : bool) : Qc := if active then Q2Qc 1.15%Q else 1.

(** The [useFrame] callback, run once per frame; [None] is a ref that holds
    no mesh. *)
Definition useFrame (active : bool) (meshRef : option Mesh) : option Mesh :=
  match meshRef with
  | Some mesh =>
      Some {| position_z :=
                MathUtils_lerp (position_z mesh) (targetZ active) (Q2Qc 0.1%Q);
              scale := MathUtils_lerp (scale mesh) (targetScale active) (Q2Qc 0.1%Q) |}
  | None => None
  end.

(** The frames of an animation, given whether the block is active at each. *)
Definition animate (actives : list bool) (meshRef : option Mesh) : option Mesh :=
  foldl (fun m active => useFrame active m) meshRef actives.

(** ** PeriodicTable.tsx: the detail card and the drop-down *)

(** The [left] and [right] of the card's style, and the [x] it slides in
    from. *)
Definition cardLeft (isMobile : bool) (displayElement : ElementData) : string :=
  if negb isMobile && bool_decide (9 < xpos displayElement)%Z then "40px"
  else if isMobile then "0" else "auto".

Definition cardRight (isMobile : bool) (displayElement : ElementData) : string :=
  if negb isMobile && bool_decide (xpos displayElement <= 9)%Z then "40px"
  else if isMobile then "0" else "auto".

Definition cardInitialX (isMobile : bool) (displayElement : ElementData) : Z :=
  if isMobile then 0%Z
  else if bool_decide (9 < xpos displayElement)%Z then (-20)%Z else 20%Z.

(** The groups of the drop-down and their items. *)
Definition dropdownGroups : list (string * list string) :=
  [ ("General", ["category"; "phase"; "block"; "cpk"]);
    ("Periodic Trends",
       ["atomic_mass"; "density"; "electronegativity"; "ionization"; "electron_affinity"]) ].

Definition dropdownItems : list string := concat (snd <$> dropdownGroups).

(** ** Runs of events, and parts of a view *)

Definition run (evs : list Event) (s : State) : State :=
  foldl (fun s ev => handle ev s) s evs.

(** An event of a device without a fine pointer: its blocks have
    [hasMouse = false]. *)
Definition touch_event (ev : Event) : Prop :=
  match ev with
  | PointerOver hasMouse _ | PointerOut hasMouse => hasMouse = false
  | _ => True
  end.

Definition view_blocks (v : View) : list BlockView :=
  match v with Table blocks _ _ _ _ _ => blocks | LoadingScreen => [] end.
Definition view_legend (v : View) : option LegendView :=
  match v with Table _ _ _ _ legend _ => legend | LoadingScreen => None end.
Definition view_details (v : View) : option ElementData :=
  match v with Table _ _ _ _ _ details => details | LoadingScreen => None end.

(** The hovered id, like the selected one, is the number of an element. *)
Definition hover_ok (s : State) : Prop :=
  forall n, hoveredElementId s = Some n -> exists e, e ∈ elements s /\ number e = n.

(** The clamp of [interpolateColor] on a finite ratio. *)
Definition clamp01 (x : Qc) : Qc :=
  if decide (1 <= x) then 1 else if decide (0 <= x) then x else 0.

(** [x] lies between [a] and [b], whichever is the greater. *)
Definition between (a b x : JS.number) : Prop :=
  (JS.le a x /\ JS.le x b) \/ (JS.le b x /\ JS.le x a).

(** The low colour as [interpolateColor] tints it. *)
Definition mixedLow `{CM : ColorManagement} (colorLow : string) : Color :=
  Color_add (Color_of_style colorLow) (Color_of_style "#111122").

(** Half the side of a block scaled by [scale]. *)
Definition halfSide (scale : Qc) : Qc := boxSize * scale * Q2Qc (1 # 2).

(** The bounds the animation keeps. *)
Definition at_rest_or_raised (mesh : Mesh) : Prop :=
  0 <= position_z mesh /\ position_z mesh <= Q2Qc 0.6%Q /\
  1 <= scale mesh /\ scale mesh <= Q2Qc 1.15%Q.

(** How many times [c] occurs in [str]. *)
Fixpoint occurrences (c : ascii) (str : string) : nat :=
  match str with
  | EmptyString => 0
  | String x rest => (if Ascii.eqb x c then 1 else 0) + occurrences c rest
  end.

(** The label of the drop-down button. *)
Definition modeLabel (m : ColorMode.t) : string :=
  replace_first "_" " " (ColorMode.key m).

(** * Properties *)

(** ** Running heap computations *)

Lemma bind_run {A B} (m : M A) (k : A -> M B) (h h' : heap) (a : A) :
  m h = Some (a, h') -> bind m k h = k a h'.
Proof. intros Hm. unfold bind. by rewrite Hm. Qed.

(** One step of a computation, justified by the lemma [lem] on its first
    action. *)
Tactic Notation "run_step" uconstr(lem) :=
  erewrite bind_run by (eapply lem; reflexivity).

Section HeapLemmas.
Context `{CM : ColorManagement}.

(** The objects of a computation are laid after the heap [h] it started on:
    [fresh] are those allocated so far. *)
Lemma deref_fresh (h fresh : heap) (i : nat) (c : Color) :
  fresh !! i = Some c ->
  deref (List.length h + i)%nat (h ++ fresh) = Some (c, h ++ fresh).
Proof.
  intros Hi. unfold deref.
  rewrite lookup_app_r by lia.
  replace (List.length h + i - List.length h)%nat with i by lia.
  by rewrite Hi.
Qed.

Lemma assign_fresh (h fresh : heap) (i : nat) (c : Color) :
  (i < List.length fresh)%nat ->
  assign (List.length h + i)%nat c (h ++ fresh) = Some (tt, h ++ <[i := c]> fresh).
Proof.
  intros Hi. unfold assign.
  rewrite decide_True by (rewrite length_app; lia).
  by rewrite insert_app_r.
Qed.

Lemma new_Color_fresh (style : string) (h fresh : heap) :
  new_Color style (h ++ fresh) =
  Some ((List.length h + List.length fresh)%nat, h ++ (fresh ++ [Color_of_style style])).
Proof. unfold new_Color, alloc. by rewrite length_app, app_assoc. Qed.

Lemma clone_fresh (h fresh : heap) (i : nat) (c : Color) :
  fresh !! i = Some c ->
  clone (List.length h + i)%nat (h ++ fresh) =
  Some ((List.length h + List.length fresh)%nat, h ++ (fresh ++ [c])).
Proof.
  intros Hi. unfold clone.
  rewrite (bind_run _ _ _ _ _ (deref_fresh h fresh i c Hi)).
  unfold alloc. by rewrite length_app, app_assoc.
Qed.

Lemma add_fresh (h fresh : heap) (i j : nat) (c k : Color) :
  fresh !! i = Some c -> fresh !! j = Some k ->
  add (List.length h + i)%nat (List.length h + j)%nat (h ++ fresh) =
  Some ((List.length h + i)%nat, h ++ <[i := Color_add c k]> fresh).
Proof.
  intros Hi Hj. unfold add.
  rewrite (bind_run _ _ _ _ _ (deref_fresh h fresh i c Hi)).
  rewrite (bind_run _ _ _ _ _ (deref_fresh h fresh j k Hj)).
  rewrite (bind_run _ _ _ _ _ (assign_fresh h fresh i _ (lookup_lt_Some _ _ _ Hi))).
  reflexivity.
Qed.

Lemma lerp_fresh (h fresh : heap) (i j : nat) (c k : Color) (alpha : JS.number) :
  fresh !! i = Some c -> fresh !! j = Some k ->
  lerp (List.length h + i)%nat (List.length h + j)%nat alpha (h ++ fresh) =
  Some ((List.length h + i)%nat, h ++ <[i := Color_lerp c k alpha]> fresh).
Proof.
  intros Hi Hj. unfold lerp.
  rewrite (bind_run _ _ _ _ _ (deref_fresh h fresh i c Hi)).
  rewrite (bind_run _ _ _ _ _ (deref_fresh h fresh j k Hj)).
  rewrite (bind_run _ _ _ _ _ (assign_fresh h fresh i _ (lookup_lt_Some _ _ _ Hi))).
  reflexivity.
Qed.

Lemma getStyle_fresh (h fresh : heap) (i : nat) (c : Color) :
  fresh !! i = Some c ->
  getStyle (List.length h + i)%nat (h ++ fresh) = Some (Color_style c, h ++ fresh).
Proof.
  intros Hi. unfold getStyle.
  by rewrite (bind_run _ _ _ _ _ (deref_fresh h fresh i c Hi)).
Qed.

Lemma interpolateColor_run (val min max : JS.number) (colorLow colorHigh : string) (h : heap) :
  interpolateColor val min max colorLow colorHigh h =
  Some (Color_style (mixed val min max colorLow colorHigh),
        h ++ [Color_of_style colorLow; Color_of_style colorHigh;
              mixed val min max colorLow colorHigh; Color_of_style "#111122"]).
Proof.
  unfold interpolateColor, mixed.
  rewrite <- (app_nil_r h) at 1.
  run_step new_Color_fresh.
  run_step new_Color_fresh.
  cbn [List.length app].
  run_step (clone_fresh h _ 0%nat).
  run_step new_Color_fresh.
  cbn [List.length app].
  run_step (add_fresh h _ 2%nat 3%nat).
  run_step (lerp_fresh h _ 2%nat 1%nat).
  erewrite getStyle_fresh with (i := 2%nat) by reflexivity.
  reflexivity.
Qed.

End HeapLemmas.

(** ** Arithmetic of the clamp *)

Lemma Qc_sub_nonpos (a b : Qc) : a <= b -> a + - b <= 0.
Proof.
  intros H. replace 0 with (b + - b) by ring.
  by apply Qcplus_le_mono_r.
Qed.

Lemma Qc_sub_pos (a b : Qc) : a < b -> 0 < b + - a.
Proof.
  intros H. replace 0 with (a + - a) by ring.
  by apply Qcplus_lt_mono_r.
Qed.

Lemma Qc_div_nonpos (a b : Qc) : a <= 0 -> 0 < b -> a / b <= 0.
Proof.
  intros Ha Hb. unfold Qcdiv.
  replace 0 with (0 * / b) by ring.
  apply Qcmult_le_compat_r; [done|].
  apply Qclt_le_weak. by apply Qcinv_pos.
Qed.

Lemma Qc_div_ge_1 (a b : Qc) : 0 < b -> b <= a -> 1 <= a / b.
Proof.
  intros Hb Ha. unfold Qcdiv.
  replace 1 with (b * / b).
  - apply Qcmult_le_compat_r; [done|].
    apply Qclt_le_weak. by apply Qcinv_pos.
  - apply Qcmult_inv_r. intros E. by apply (Qclt_not_eq _ _ Hb).
Qed.


Lemma Qc_0_lt_1 : (0 : Qc) < 1.
Proof. reflexivity. Qed.

Lemma clamp_nonpos (x : Qc) :
  x <= 0 -> JS.Math_max (Fin 0) (JS.Math_min (Fin 1) (Fin x)) = Fin 0.
Proof.
  intros Hx. cbn.
  rewrite bool_decide_eq_false_2; cbn.
  - case_bool_decide as H0; [|done]. f_equal. by apply Qcle_antisym.
  - apply Qclt_not_le. eapply Qcle_lt_trans; [done|]. apply Qc_0_lt_1.
Qed.

Lemma clamp_ge_1 (x : Qc) :
  1 <= x -> JS.Math_max (Fin 0) (JS.Math_min (Fin 1) (Fin x)) = Fin 1.
Proof.
  intros Hx. cbn.
  rewrite bool_decide_eq_true_2 by done; cbn.
  rewrite bool_decide_eq_true_2; [done|]. apply Qclt_le_weak, Qc_0_lt_1.
Qed.

Lemma clamp_bounds (x : JS.number) :
  x <> NaN ->
  exists t : Qc, JS.Math_max (Fin 0) (JS.Math_min (Fin 1) x) = Fin t /\ 0 <= t /\ t <= 1.
Proof.
  intros Hx. destruct x as [q| | |]; [| | |done].
  - destruct (Qclt_le_dec q 0) as [Hneg|Hnn].
    { exists 0. rewrite clamp_nonpos by by apply Qclt_le_weak.
      split; [done|]. split; [apply Qcle_refl | apply Qclt_le_weak, Qc_0_lt_1]. }
    destruct (Qclt_le_dec q 1) as [Hlt|Hge].
    + exists q. cbn. rewrite bool_decide_eq_false_2 by by apply Qclt_not_le.
      cbn. rewrite bool_decide_eq_true_2 by done.
      split; [done|]. split; [done | by apply Qclt_le_weak].
    + exists 1. rewrite clamp_ge_1 by done.
      split; [done|]. split; [apply Qclt_le_weak, Qc_0_lt_1 | apply Qcle_refl].
  - exists 1. cbn. split; [done|]. split; [apply Qclt_le_weak, Qc_0_lt_1 | apply Qcle_refl].
  - exists 0. cbn. split; [done|]. split; [apply Qcle_refl | apply Qclt_le_weak, Qc_0_lt_1].
Qed.

Lemma ratio_finite (v : JS.number) (mn mx : Qc) :
  mn < mx ->
  JS.div (JS.sub v (Fin mn)) (JS.sub (Fin mx) (Fin mn)) =
  match v with
  | Fin q => Fin ((q + - mn) / (mx + - mn))
  | _ => v
  end.
Proof.
  intros Hlt. pose proof (Qc_sub_pos _ _ Hlt) as Hpos.
  assert (mx + - mn <> 0) as Hne by (intros E; by apply (Qclt_not_eq _ _ Hpos)).
  destruct v as [q| | |]; cbn; [by rewrite decide_False by done| | |done].
  - rewrite decide_False; [done|]. by apply Qcle_not_lt, Qclt_le_weak.
  - rewrite decide_False; [done|]. by apply Qcle_not_lt, Qclt_le_weak.
Qed.

Lemma interpolation_t_low (v : JS.number) (mn mx : Qc) :
  JS.le v (Fin mn) -> mn < mx -> interpolation_t v (Fin mn) (Fin mx) = Fin 0.
Proof.
  intros Hv Hlt. unfold interpolation_t. rewrite ratio_finite by done.
  destruct v as [q| | |]; try discriminate Hv; [|done].
  apply bool_decide_eq_true in Hv.
  apply clamp_nonpos, Qc_div_nonpos; [by apply Qc_sub_nonpos | by apply Qc_sub_pos].
Qed.

Lemma interpolation_t_high (v : JS.number) (mn mx : Qc) :
  JS.le (Fin mx) v -> mn < mx -> interpolation_t v (Fin mn) (Fin mx) = Fin 1.
Proof.
  intros Hv Hlt. unfold interpolation_t. rewrite ratio_finite by done.
  destruct v as [q| | |]; try discriminate Hv; [|done].
  apply bool_decide_eq_true in Hv.
  apply clamp_ge_1, Qc_div_ge_1; [by apply Qc_sub_pos|].
  by apply Qcplus_le_mono_r.
Qed.

Lemma interpolation_t_bounds (v : JS.number) (mn mx : Qc) :
  v <> NaN -> mn < mx ->
  exists t : Qc, interpolation_t v (Fin mn) (Fin mx) = Fin t /\ 0 <= t /\ t <= 1.
Proof.
  intros Hv Hlt. unfold interpolation_t. rewrite ratio_finite by done.
  apply clamp_bounds. by destruct v.
Qed.

(** ** Colours *)

Section ColourLemmas.
Context `{CM : ColorManagement}.

Lemma setRGB_finite (x y z : Qc) : finite_color (setRGB x y z).
Proof. by eexists _, _, _. Qed.

Lemma Color_of_style_finite (style : string) : finite_color (Color_of_style style).
Proof.
  assert (finite_color white) as Hw by by eexists _, _, _.
  unfold Color_of_style, setHex.
  repeat case_match; auto using setRGB_finite.
Qed.

Lemma Color_add_finite (c k : Color) :
  finite_color c -> finite_color k -> finite_color (Color_add c k).
Proof. intros (x & y & z & ->) (x' & y' & z' & ->). by eexists _, _, _. Qed.

(** [lerp] with [alpha = 0] leaves the receiver as it is, and with
    [alpha = 1] makes it the other colour. *)
Lemma Color_lerp_0 (c k : Color) :
  finite_color c -> finite_color k -> Color_lerp c k (Fin 0) = c.
Proof.
  intros (x & y & z & ->) (x' & y' & z' & ->).
  unfold Color_lerp; cbn. f_equal; f_equal; ring.
Qed.

Lemma Color_lerp_1 (c k : Color) :
  finite_color c -> finite_color k -> Color_lerp c k (Fin 1) = k.
Proof.
  intros (x & y & z & ->) (x' & y' & z' & ->).
  unfold Color_lerp; cbn. f_equal; f_equal; ring.
Qed.

Lemma interpolateColor_returns (val min max : JS.number) (colorLow colorHigh : string) :
  returns (interpolateColor val min max colorLow colorHigh)
          (Color_style (mixed val min max colorLow colorHigh)).
Proof. intros h. by rewrite interpolateColor_run. Qed.

Lemma mixed_low (v : JS.number) (mn mx : Qc) (colorLow colorHigh : string) :
  JS.le v (Fin mn) -> mn < mx ->
  mixed v (Fin mn) (Fin mx) colorLow colorHigh =
  Color_add (Color_of_style colorLow) (Color_of_style "#111122").
Proof.
  intros Hv Hlt. unfold mixed. rewrite interpolation_t_low by done.
  apply Color_lerp_0; auto using Color_add_finite, Color_of_style_finite.
Qed.

Lemma mixed_high (v : JS.number) (mn mx : Qc) (colorLow colorHigh : string) :
  JS.le (Fin mx) v -> mn < mx ->
  mixed v (Fin mn) (Fin mx) colorLow colorHigh = Color_of_style colorHigh.
Proof.
  intros Hv Hlt. unfold mixed. rewrite interpolation_t_high by done.
  apply Color_lerp_1; auto using Color_add_finite, Color_of_style_finite.
Qed.

Lemma interpolateColor_at_min_aux (v : JS.number) (mn mx : Qc) (colorLow colorHigh : string) :
  JS.le v (Fin mn) -> mn < mx ->
  returns (interpolateColor v (Fin mn) (Fin mx) colorLow colorHigh)
          (Color_style (Color_add (Color_of_style colorLow) (Color_of_style "#111122"))).
Proof.
  intros Hv Hlt.
  rewrite <- (mixed_low v mn mx colorLow colorHigh) by done.
  apply interpolateColor_returns.
Qed.

Lemma interpolateColor_at_max_aux (v : JS.number) (mn mx : Qc) (colorLow colorHigh : string) :
  JS.le (Fin mx) v -> mn < mx ->
  returns (interpolateColor v (Fin mn) (Fin mx) colorLow colorHigh)
          (Color_style (Color_of_style colorHigh)).
Proof.
  intros Hv Hlt.
  rewrite <- (mixed_high v mn mx colorLow colorHigh) by done.
  apply interpolateColor_returns.
Qed.

End ColourLemmas.

(** ** Printing a colour that was read from a style

    A colour management whose two transfer functions undo each other prints
    a byte channel as the byte it was read from. *)

Lemma Qfloor_Qred_half (z : Z) :
  Qfloor (Qred (inject_Z z) + (1 # 2)) = z.
Proof.
  rewrite (Qfloor_comp _ (inject_Z z + (1 # 2))) by (by rewrite Qred_correct).
  unfold Qfloor, Qplus, inject_Z; cbn.
  rewrite Z.mul_1_r. rewrite Z.add_comm, Z.div_add by done. reflexivity.
Qed.

Lemma Qfloor_Qred_Z (z : Z) : Qfloor (Qred (inject_Z z)) = z.
Proof.
  rewrite (Qfloor_comp _ (inject_Z z)) by apply Qred_correct.
  apply Qfloor_Z.
Qed.

Lemma round_to_string_Z (z : Z) :
  JS.to_string (JS.Math_round (Fin (Q2Qc (inject_Z z)))) = JS.string_of_Z z.
Proof.
  unfold JS.Math_round, JS.to_string. cbn [this Q2Qc].
  by rewrite Qfloor_Qred_half, Qfloor_Qred_Z.
Qed.

Lemma channel_style_byte `{CM : ColorManagement} (n : N) :
  (forall x : Qc, LinearToSRGB (SRGBToLinear x) = x) ->
  channel_style (Fin (SRGBToLinear (Qc_of_N n / Qc_of_N 255)))
  = JS.string_of_Z (Z.of_N n).
Proof.
  intros Hround. unfold channel_style, transfer. rewrite Hround.
  cbn [JS.mul].
  replace (Qc_of_N n / Qc_of_N 255 * Qc_of_N 255) with (Qc_of_N n).
  - apply round_to_string_Z.
  - symmetry. apply test_field. done.
Qed.

(** [getStyle] of [setHex(hex)] is [rgb(R,G,B)] with the three bytes of
    [hex]. *)
Lemma Color_style_setHex `{CM : ColorManagement} (hex : N) :
  (forall x : Qc, LinearToSRGB (SRGBToLinear x) = x) ->
  Color_style (setHex hex) =
  "rgb(" +:+ JS.string_of_Z (Z.of_N (N.land (N.shiftr hex 16) 255)) +:+ ","
         +:+ JS.string_of_Z (Z.of_N (N.land (N.shiftr hex 8) 255)) +:+ ","
         +:+ JS.string_of_Z (Z.of_N (N.land hex 255)) +:+ ")".
Proof.
  intros Hround. unfold Color_style, setHex, setRGB. cbn [r g b].
  by rewrite !channel_style_byte.
Qed.

(** For every such colour management, at the top of the range each of the
    five high colours of [color] comes back as its three bytes. *)
Lemma interpolateColor_at_max_bytes `{CM : ColorManagement}
    (m : ColorMode.t) (v : JS.number) (mn mx : Qc) (colorLow : string) :
  (forall x : Qc, LinearToSRGB (SRGBToLinear x) = x) ->
  numeric m = true -> JS.le (Fin mx) v -> mn < mx ->
  returns (interpolateColor v (Fin mn) (Fin mx) colorLow (colorHigh_of m))
          (high_style m).
Proof.
  intros Hround Hm Hv Hlt h.
  rewrite (interpolateColor_at_max_aux v mn mx colorLow _ Hv Hlt h).
  destruct m; try discriminate Hm; cbn [colorHigh_of high_style].
  - change (Color_of_style "#e94560") with (setHex 15287648).
    by rewrite Color_style_setHex.
  - change (Color_of_style "#00d2ff") with (setHex 54015).
    by rewrite Color_style_setHex.
  - change (Color_of_style "#f9d423") with (setHex 16372771).
    by rewrite Color_style_setHex.
  - change (Color_of_style "#a8ff78") with (setHex 11075448).
    by rewrite Color_style_setHex.
  - change (Color_of_style "#ff0080") with (setHex 16711808).
    by rewrite Color_style_setHex.
Qed.

(** And at the bottom of the range, if moreover black is black, a black low
    colour comes back as [#111122]. *)
Lemma interpolateColor_at_min_black `{CM : ColorManagement}
    (v : JS.number) (mn mx : Qc) (colorHigh : string) :
  (forall x : Qc, LinearToSRGB (SRGBToLinear x) = x) -> SRGBToLinear 0 = 0 ->
  JS.le v (Fin mn) -> mn < mx ->
  returns (interpolateColor v (Fin mn) (Fin mx) "#000000" colorHigh) "rgb(17,17,34)".
Proof.
  intros Hround Hzero Hv Hlt h.
  rewrite (interpolateColor_at_min_aux v mn mx "#000000" colorHigh Hv Hlt h).
  replace (Color_add (Color_of_style "#000000") (Color_of_style "#111122"))
    with (setHex 1118498).
  - by rewrite Color_style_setHex.
  - change (Color_of_style "#000000") with (setHex 0).
    change (Color_of_style "#111122") with (setHex 1118498).
    unfold Color_add, setHex, setRGB. cbn [r g b JS.add].
    change (N.shiftr 0 16) with 0%N. change (N.shiftr 0 8) with 0%N.
    change (N.land 0 255) with 0%N.
    replace (Qc_of_N 0 / Qc_of_N 255) with (0 : Qc) by (apply Qc_is_canon; reflexivity).
    rewrite Hzero. f_equal; f_equal; ring.
Qed.

(** ** The claims on [interpolateColor] *)

(** C1, as amended. For a range with [min < max] and every value [v <= min]
    (so [t = 0]), [interpolateColor] returns the style of the low colour
    with [#111122] added to it channel by channel, not the low colour
    itself. *)
Theorem interpolateColor_at_min `{CM : ColorManagement}
    (v : JS.number) (mn mx : Qc) (colorLow colorHigh : string) :
  JS.le v (Fin mn) -> mn < mx ->
  interpolation_t v (Fin mn) (Fin mx) = Fin 0 /\
  returns (interpolateColor v (Fin mn) (Fin mx) colorLow colorHigh)
          (Color_style (Color_add (Color_of_style colorLow) (Color_of_style "#111122"))).
Proof.
  intros Hv Hlt. split; [by apply interpolation_t_low|].
  by apply interpolateColor_at_min_aux.
Qed.

Lemma interpolateColor_at_min_witness :
  returns (interpolateColor (CM := LegacyColorManagement)
             (Fin 1) (Fin 1) (Fin (1 + 1)) "#222244" "#e94560")
          "rgb(51,51,102)".
Proof.
  apply (interpolateColor_at_min (CM := LegacyColorManagement)
           (Fin 1) 1 (1 + 1) "#222244" "#e94560"); reflexivity.
Defined.

(** C1 as stated fails: at the range minimum the low colour [#222244] comes
    back as [rgb(51,51,102)], which is neither the string [#222244] nor the
    style [rgb(34,34,68)] of that colour. *)
Lemma interpolateColor_at_min_not_colorLow :
  JS.le (Fin 1) (Fin 1) /\ (1 : Qc) < 1 + 1 /\
  eval (interpolateColor (CM := LegacyColorManagement)
          (Fin 1) (Fin 1) (Fin (1 + 1)) "#222244" "#e94560") = Some "rgb(51,51,102)" /\
  Color_style (CM := LegacyColorManagement)
    (Color_of_style (CM := LegacyColorManagement) "#222244") = "rgb(34,34,68)" /\
  "rgb(51,51,102)" <> "#222244" /\ "rgb(51,51,102)" <> "rgb(34,34,68)".
Proof. repeat split; try reflexivity; discriminate. Qed.

(** C5. For a range with [min < max] and every value [v >= max] (so [t = 1]),
    [interpolateColor] returns the high colour, printed as [getStyle] prints
    it; and for every value that is a number, [t] lies in [0, 1]. Where the
    colour management round-trips, what is printed for the high colour of
    each numeric mode is the three bytes of that colour. *)
Theorem interpolateColor_at_max `{CM : ColorManagement}
    (v : JS.number) (mn mx : Qc) (colorLow colorHigh : string) :
  JS.le (Fin mx) v -> mn < mx ->
  interpolation_t v (Fin mn) (Fin mx) = Fin 1 /\
  returns (interpolateColor v (Fin mn) (Fin mx) colorLow colorHigh)
          (Color_style (Color_of_style colorHigh)) /\
  (forall v' : JS.number, v' <> NaN ->
     exists t : Qc, interpolation_t v' (Fin mn) (Fin mx) = Fin t /\ 0 <= t /\ t <= 1) /\
  ((forall x : Qc, LinearToSRGB (SRGBToLinear x) = x) ->
   forall m : ColorMode.t, numeric m = true ->
     returns (interpolateColor v (Fin mn) (Fin mx) colorLow (colorHigh_of m))
             (high_style m)).
Proof.
  intros Hv Hlt. split; [by apply interpolation_t_high|]. split; [|split].
  - by apply interpolateColor_at_max_aux.
  - intros v' Hv'. by apply interpolation_t_bounds.
  - intros Hround m Hm. by apply interpolateColor_at_max_bytes.
Qed.

Lemma interpolateColor_at_max_witness :
  returns (interpolateColor (CM := LegacyColorManagement)
             PosInf (Fin 1) (Fin (1 + 1)) "#222244" "#e94560")
          "rgb(233,69,96)".
Proof.
  apply (interpolateColor_at_max (CM := LegacyColorManagement)
           PosInf 1 (1 + 1) "#222244" "#e94560"); reflexivity.
Defined.

(** C7. [interpolateColor] is a function of its arguments: there is one
    string it returns whatever the heap it is called on, it never throws, and
    it leaves every object that existed before the call as it was (the heap
    after the call is the heap before it, followed by the objects the call
    allocated). *)
Theorem interpolateColor_pure `{CM : ColorManagement}
    (val min max : JS.number) (colorLow colorHigh : string) :
  exists (style : string) (fresh : heap),
    forall h : heap,
      interpolateColor val min max colorLow colorHigh h = Some (style, h ++ fresh).
Proof.
  eexists _, _. intros h. apply interpolateColor_run.
Qed.

(** ** The range scan *)

Lemma Math_min_of_nil : JS.Math_min_of [] = PosInf.
Proof. reflexivity. Qed.

Lemma Math_max_of_nil : JS.Math_max_of [] = NegInf.
Proof. reflexivity. Qed.

Lemma Math_min_of_least (xs : list Qc) :
  xs <> [] -> exists a : Qc, JS.Math_min_of (Fin <$> xs) = Fin a /\ least a xs.
Proof.
  induction xs as [|x xs IH]; [done|]. intros _.
  destruct xs as [|y ys].
  - exists x. split; [done|]. split; [by left|].
    intros z Hz. apply list_elem_of_singleton in Hz as ->. apply Qcle_refl.
  - destruct IH as (a & Ha & Hin & Hle); [done|].
    cbn [fmap list_fmap JS.Math_min_of foldr] in *.
    unfold JS.Math_min_of in Ha. cbn [fmap list_fmap foldr] in Ha. rewrite Ha.
    cbn. case_bool_decide as Hxa.
    + exists x. split; [done|]. split; [by left|].
      intros z Hz. apply elem_of_cons in Hz as [->|Hz]; [apply Qcle_refl|].
      eapply Qcle_trans; [exact Hxa | by apply Hle].
    + exists a. split; [done|]. split; [by right|].
      intros z Hz. apply elem_of_cons in Hz as [->|Hz]; [|by apply Hle].
      apply Qclt_le_weak. by apply Qcnot_le_lt.
Qed.

Lemma Math_max_of_greatest (xs : list Qc) :
  xs <> [] -> exists b : Qc, JS.Math_max_of (Fin <$> xs) = Fin b /\ greatest b xs.
Proof.
  induction xs as [|x xs IH]; [done|]. intros _.
  destruct xs as [|y ys].
  - exists x. split; [done|]. split; [by left|].
    intros z Hz. apply list_elem_of_singleton in Hz as ->. apply Qcle_refl.
  - destruct IH as (b & Hb & Hin & Hle); [done|].
    cbn [fmap list_fmap JS.Math_max_of foldr] in *.
    unfold JS.Math_max_of in Hb. cbn [fmap list_fmap foldr] in Hb. rewrite Hb.
    cbn. case_bool_decide as Hxb.
    + exists b. split; [done|]. split; [by right|].
      intros z Hz. apply elem_of_cons in Hz as [->|Hz]; [done | by apply Hle].
    + exists x. split; [done|]. split; [by left|].
      intros z Hz. apply elem_of_cons in Hz as [->|Hz]; [apply Qcle_refl|].
      eapply Qcle_trans; [by apply Hle|].
      apply Qclt_le_weak. by apply Qcnot_le_lt.
Qed.

(** What the filters keep is what has a value. *)
Lemma scan_optional (f : ElementData -> option Qc) (es : list ElementData) :
  (fun e => non_null (f e)) <$> filter (fun e => f e <> None) es = Fin <$> omap f es.
Proof.
  induction es as [|e es IH]; [done|].
  rewrite filter_cons. cbn [omap list_omap].
  destruct (f e) as [q|] eqn:Hf.
  - rewrite decide_True by done. cbn. rewrite Hf. cbn. by f_equal.
  - rewrite decide_False by (intros H; by apply H). done.
Qed.

Lemma scan_first (es : list ElementData) :
  (fun e => first_or_undefined (ionization_energies e))
    <$> filter (fun e => (0 < List.length (ionization_energies e))%nat) es
  = Fin <$> omap (fun e => head (ionization_energies e)) es.
Proof.
  induction es as [|e es IH]; [done|].
  rewrite filter_cons. cbn [omap list_omap].
  destruct (ionization_energies e) as [|q qs] eqn:Hi.
  - rewrite decide_False by (cbn; lia). done.
  - rewrite decide_True by (cbn; lia). cbn. rewrite Hi. cbn. by f_equal.
Qed.

Lemma scan_all (es : list ElementData) :
  (fun e => Fin (atomic_mass e)) <$> es = Fin <$> omap (fun e => Some (atomic_mass e)) es.
Proof. induction es as [|e es IH]; [done|]. cbn. by f_equal. Qed.

Lemma ranges_lookup (m : ColorMode.t) (es : list ElementData) :
  es <> [] -> numeric m = true ->
  ranges es !! ColorMode.key m =
  Some (JS.Math_min_of (Fin <$> present_values m es),
        JS.Math_max_of (Fin <$> present_values m es)).
Proof.
  intros Hes Hm. unfold ranges, present_values.
  rewrite decide_False by (by destruct es).
  cbv zeta.
  destruct m; try discriminate Hm; cbn [ColorMode.key property_value];
    repeat (rewrite lookup_insert_ne by done); rewrite lookup_insert_eq;
    by rewrite ?scan_optional, ?scan_first, ?scan_all.
Qed.

(** Outside the numeric modes nothing that is rendered reads [ranges]: no
    block colour does, and there is no legend. *)
Lemma renderWith_ranges `{CM : ColorManagement}
    (s : State) (r r' : gmap string (JS.number * JS.number)) :
  numeric (colorMode s) = false -> renderWith r s = renderWith r' s.
Proof.
  intros Hm. unfold renderWith. destruct (loading s); [done|].
  assert (renderLegend s r = renderLegend s r') as ->.
  { unfold renderLegend. by destruct (colorMode s). }
  f_equal. apply list_fmap_ext. intros _ e _.
  unfold renderBlock. by destruct (colorMode s).
Qed.

(** C3. When the loaded list is not empty, the range of each numeric
    property is the pair of [Math.min] and [Math.max] over the values of the
    records that have one, the records without a value being left out; when
    some record has a value these are the least and the greatest of those
    values, and when none has they are [Infinity] and [-Infinity]. The
    ranges serve the interpolated colours only: in a mode that is not numeric
    the output is the same whatever the ranges are. *)
Theorem ranges_min_max `{CM : ColorManagement} (m : ColorMode.t) (es : list ElementData) :
  es <> [] -> numeric m = true ->
  (exists lo hi : JS.number,
     ranges es !! ColorMode.key m = Some (lo, hi) /\
     lo = JS.Math_min_of (Fin <$> present_values m es) /\
     hi = JS.Math_max_of (Fin <$> present_values m es) /\
     (present_values m es <> [] ->
        exists a b : Qc, lo = Fin a /\ hi = Fin b /\
          least a (present_values m es) /\ greatest b (present_values m es)) /\
     (present_values m es = [] -> lo = PosInf /\ hi = NegInf)) /\
  (forall (s : State) (r r' : gmap string (JS.number * JS.number)),
     numeric (colorMode s) = false -> renderWith r s = renderWith r' s).
Proof.
  intros Hes Hm. split; [|apply @renderWith_ranges].
  eexists _, _. split; [by apply ranges_lookup|].
  split; [done|]. split; [done|]. split.
  - intros Hne.
    destruct (Math_min_of_least _ Hne) as (a & Ha & Hleast).
    destruct (Math_max_of_greatest _ Hne) as (b & Hb & Hgreatest).
    by exists a, b.
  - by intros ->.
Qed.

Lemma ranges_min_max_witness :
  exists lo hi : JS.number,
    ranges [sample 1 (Some 5); sample 2 None; sample 3 (Some 3)] !! "density" = Some (lo, hi) /\
    lo = Fin (Q2Qc 3%Q) /\ hi = Fin (Q2Qc 5%Q).
Proof.
  destruct (ranges_min_max (CM := LegacyColorManagement) ColorMode.density
              [sample 1 (Some 5); sample 2 None; sample 3 (Some 3)])
    as [(lo & hi & Hr & Hlo & Hhi & _) _]; [done | done |].
  exists lo, hi. split; [exact Hr|]. split; [by rewrite Hlo | by rewrite Hhi].
Defined.

(** ** The colour of an element *)

Section ColorLemmas.
Context `{CM : ColorManagement}.

Lemma num_or_0_pos (q : Qc) : 0 < q -> num_or_0 (Some q) = Fin q.
Proof.
  intros Hq. cbn. rewrite bool_decide_eq_false_2; [done|].
  intros ->. by apply (Qclt_not_eq _ _ Hq).
Qed.

Lemma returns_ret {A} (a : A) : returns (ret a) a.
Proof. by intros h. Qed.

(** In a numeric mode whose range is there, [color] is one call of
    [interpolateColor]. *)
Lemma color_numeric (m : ColorMode.t) (e : ElementData)
    (r : gmap string (JS.number * JS.number)) (lo hi : JS.number) (h : heap) :
  numeric m = true -> r !! ColorMode.key m = Some (lo, hi) ->
  color m e r h =
  as_value (interpolateColor (interpolated_value m e) lo hi "#222244" (colorHigh_of m)) h.
Proof.
  intros Hm Hr.
  destruct m; try discriminate Hm; cbn [ColorMode.key] in Hr;
    unfold color, range; unfold bind at 1; rewrite Hr; reflexivity.
Qed.

Lemma as_value_run (m : M string) (h : heap) (s : string) :
  fst <$> m h = Some s -> fst <$> as_value m h = Some (Str s).
Proof.
  unfold as_value, bind. destruct (m h) as [[s' h']|]; cbn; [|done].
  by intros [= ->].
Qed.

Lemma color_returns (m : ColorMode.t) (e : ElementData) (es : list ElementData) :
  es <> [] -> exists v : Value, returns (color m e (ranges es)) v.
Proof.
  intros Hes. destruct (numeric m) eqn:Hm.
  - eexists. intros h.
    rewrite (color_numeric m e _ _ _ h Hm (ranges_lookup m es Hes Hm)).
    apply as_value_run, interpolateColor_returns.
  - destruct m; try discriminate Hm; eexists; apply returns_ret.
Qed.

(** In the numeric modes and in cpk mode what [color] returns is a string. *)
Lemma color_returns_string (m : ColorMode.t) (e : ElementData) (es : list ElementData) :
  es <> [] -> numeric m = true \/ m = ColorMode.cpk ->
  exists c : string, returns (color m e (ranges es)) (Str c).
Proof.
  intros Hes [Hm| ->].
  - eexists. intros h.
    rewrite (color_numeric m e _ _ _ h Hm (ranges_lookup m es Hes Hm)).
    apply as_value_run, interpolateColor_returns.
  - eexists. apply returns_ret.
Qed.

(** A key that is not in a table: the fallback, unless the name is one every
    object inherits. *)
Lemma index_missing (table : gmap string string) (key : string) :
  table !! key = None ->
  value_or (index table key) "#444444"
  = if decide (key ∈ Object_prototype) then Inherited key else Str "#444444".
Proof. intros Hnone. unfold index. rewrite Hnone. by case_decide. Qed.

End ColorLemmas.

(** C9, as amended. In category, phase and block mode an element whose
    string is neither a key of the table nor a name that objects inherit from
    [Object.prototype] gets [#444444]; for such an inherited name the table
    answers with the inherited member, which is truthy, so there is no
    fallback and what [color] returns is that member, not a colour. In cpk
    mode an element whose [cpk_hex] is [null] gets [#444444]. Every element of
    the loaded list gets a value in every mode, [color] never throws there,
    and in the numeric modes and in cpk mode the value is a string. *)
Theorem color_total `{CM : ColorManagement}
    (es : list ElementData) (e : ElementData) (m : ColorMode.t) :
  e ∈ es ->
  (exists v : Value, returns (color m e (ranges es)) v) /\
  (numeric m = true \/ m = ColorMode.cpk ->
     exists c : string, returns (color m e (ranges es)) (Str c)) /\
  (categoryColors !! category e = None ->
     returns (color ColorMode.category e (ranges es))
       (if decide (category e ∈ Object_prototype)
        then Inherited (category e) else Str "#444444")) /\
  (phaseColors !! phase e = None ->
     returns (color ColorMode.phase e (ranges es))
       (if decide (phase e ∈ Object_prototype)
        then Inherited (phase e) else Str "#444444")) /\
  (blockColors !! block e = None ->
     returns (color ColorMode.block e (ranges es))
       (if decide (block e ∈ Object_prototype)
        then Inherited (block e) else Str "#444444")) /\
  (cpk_hex e = None -> returns (color ColorMode.cpk e (ranges es)) (Str "#444444")).
Proof.
  intros He.
  assert (es <> []) as Hes by (intros ->; by apply not_elem_of_nil in He).
  split; [by apply color_returns|]. split; [by apply color_returns_string|].
  repeat split; intros Hnone h; unfold color, ret; cbn [fmap option_fmap option_map fst].
  - by rewrite index_missing.
  - by rewrite index_missing.
  - by rewrite index_missing.
  - by rewrite Hnone.
Qed.

Lemma color_total_witness :
  sample_in "unknown, probably transition metal"
    ∈ [sample 1 (Some 5%Z); sample_in "unknown, probably transition metal"] /\
  returns (color (CM := LegacyColorManagement) ColorMode.category
             (sample_in "unknown, probably transition metal")
             (ranges [sample 1 (Some 5%Z); sample_in "unknown, probably transition metal"]))
          (Str "#444444").
Proof.
  assert (sample_in "unknown, probably transition metal"
            ∈ [sample 1 (Some 5%Z); sample_in "unknown, probably transition metal"]) as Hin
    by (right; left).
  split; [exact Hin|].
  destruct (color_total (CM := LegacyColorManagement) _ _ ColorMode.category Hin)
    as (_ & _ & Hcategory & _).
  exact (Hcategory eq_refl).
Defined.

(** C9 as stated fails for a category that names a member of
    [Object.prototype]: [constructor] is not a key of [categoryColors], yet
    [categoryColors["constructor"]] is the inherited constructor, truthy, and
    the element gets that function and not [#444444]. *)
Lemma color_of_inherited_name :
  categoryColors !! category (sample_in "constructor") = None /\
  eval (color (CM := LegacyColorManagement) ColorMode.category (sample_in "constructor")
          (ranges [sample_in "constructor"])) = Some (Inherited "constructor") /\
  Inherited "constructor" <> Str "#444444".
Proof. split; [reflexivity | split; [reflexivity | discriminate]]. Qed.

(** C10, as amended. In a numeric mode an element without a value is coloured
    by interpolating [0]; when the range is [0 < min < max] this is [t = 0],
    and the element gets the colour of an element whose value is the range
    minimum. *)
Theorem missing_value_color `{CM : ColorManagement}
    (m : ColorMode.t) (e : ElementData)
    (r : gmap string (JS.number * JS.number)) (lo hi : JS.number) :
  numeric m = true -> property_value m e = None ->
  r !! ColorMode.key m = Some (lo, hi) ->
  (forall h : heap,
     color m e r h
     = as_value (interpolateColor (Fin 0) lo hi "#222244" (colorHigh_of m)) h) /\
  (forall mn mx : Qc,
     lo = Fin mn -> hi = Fin mx -> 0 < mn -> mn < mx ->
     interpolation_t (Fin 0) lo hi = Fin 0 /\
     forall e_min : ElementData,
       property_value m e_min = Some mn ->
       exists c : string,
         returns (color m e r) (Str c) /\ returns (color m e_min r) (Str c)).
Proof.
  intros Hm Hnone Hr.
  assert (interpolated_value m e = Fin 0) as He.
  { unfold interpolated_value. destruct m; try discriminate; by rewrite ?Hnone. }
  split.
  { intros h. by rewrite (color_numeric m e r lo hi h Hm Hr), He. }
  intros mn mx -> -> Hpos Hlt.
  assert (JS.le (Fin 0) (Fin mn)) as H0
    by by apply bool_decide_eq_true, Qclt_le_weak.
  split; [by apply interpolation_t_low|].
  intros e_min Hmin.
  assert (interpolated_value m e_min = Fin mn) as Hv.
  { unfold interpolated_value.
    destruct m; try discriminate Hm; rewrite ?Hmin;
      [cbn in Hmin; congruence | by apply num_or_0_pos ..]. }
  assert (JS.le (Fin mn) (Fin mn)) as Hle by apply bool_decide_eq_true, Qcle_refl.
  exists (Color_style (Color_add (Color_of_style "#222244") (Color_of_style "#111122"))).
  split; intros h.
  - rewrite (color_numeric m e r _ _ h Hm Hr), He.
    by apply as_value_run, interpolateColor_at_min_aux.
  - rewrite (color_numeric m e_min r _ _ h Hm Hr), Hv.
    by apply as_value_run, interpolateColor_at_min_aux.
Qed.

Lemma missing_value_color_witness :
  numeric ColorMode.density = true /\
  property_value ColorMode.density (sample 2 None) = None /\
  interpolation_t (Fin 0) (Fin (Q2Qc 3%Q)) (Fin (Q2Qc 5%Q)) = Fin 0 /\
  exists c : string,
    returns (color (CM := LegacyColorManagement) ColorMode.density (sample 2 None)
               (ranges [sample 1 (Some 5%Z); sample 2 None; sample 3 (Some 3%Z)])) (Str c) /\
    returns (color (CM := LegacyColorManagement) ColorMode.density (sample 3 (Some 3%Z))
               (ranges [sample 1 (Some 5%Z); sample 2 None; sample 3 (Some 3%Z)])) (Str c).
Proof.
  split; [reflexivity|]. split; [reflexivity|].
  destruct (missing_value_color (CM := LegacyColorManagement)
              ColorMode.density (sample 2 None)
              (ranges [sample 1 (Some 5%Z); sample 2 None; sample 3 (Some 3%Z)])
              (Fin (Q2Qc 3%Q)) (Fin (Q2Qc 5%Q)) eq_refl eq_refl eq_refl) as [_ Hrange].
  destruct (Hrange (Q2Qc 3%Q) (Q2Qc 5%Q) eq_refl eq_refl eq_refl eq_refl) as [Ht Hsame].
  split; [exact Ht|].
  exact (Hsame (sample 3 (Some 3%Z)) eq_refl).
Defined.

(** C10 as stated fails on a range of width zero. With one record of density
    5 and one without density the range is (5, 5), its minimum is positive
    and the record without density is at [t = 0], but the record at the
    minimum is at [t = NaN] and gets another colour. With no density at all
    the range is (Infinity, -Infinity), its minimum is positive, and [t] is
    [NaN]. *)
Lemma missing_value_color_degenerate :
  ranges [sample 1 (Some 5%Z); sample 2 None] !! "density"
    = Some (Fin (Q2Qc 5%Q), Fin (Q2Qc 5%Q)) /\
  (0 : Qc) < Q2Qc 5%Q /\
  property_value ColorMode.density (sample 2 None) = None /\
  property_value ColorMode.density (sample 1 (Some 5%Z)) = Some (Q2Qc 5%Q) /\
  interpolation_t (Fin 0) (Fin (Q2Qc 5%Q)) (Fin (Q2Qc 5%Q)) = Fin 0 /\
  eval (color (CM := LegacyColorManagement) ColorMode.density (sample 2 None)
          (ranges [sample 1 (Some 5%Z); sample 2 None])) = Some (Str "rgb(51,51,102)") /\
  eval (color (CM := LegacyColorManagement) ColorMode.density (sample 1 (Some 5%Z))
          (ranges [sample 1 (Some 5%Z); sample 2 None])) = Some (Str "rgb(NaN,NaN,NaN)") /\
  "rgb(51,51,102)" <> "rgb(NaN,NaN,NaN)" /\
  ranges [sample 2 None] !! "density" = Some (PosInf, NegInf) /\
  JS.lt (Fin 0) PosInf /\
  interpolation_t (Fin 0) PosInf NegInf = NaN.
Proof. repeat split; try reflexivity; discriminate. Qed.

(** ** Hover and selection *)

Lemma handle_elements (ev : Event) (s : State) : elements (handle ev s) = elements s.
Proof.
  destruct ev; cbn;
    unfold onClickOutside, onPointerOver, onPointerOut, onClick;
    repeat case_match; reflexivity.
Qed.

Lemma reachable_elements (s0 s : State) : reachable s0 s -> elements s = elements s0.
Proof.
  induction 1 as [|s ev _ IH _]; [done|]. by rewrite handle_elements.
Qed.

Lemma falsy_id_selected (s : State) :
  (forall e, e ∈ elements s -> number e <> 0%Z) -> ids_ok s ->
  selectedElementId s <> None -> falsy_id (selectedElementId s) = false.
Proof.
  intros Hnz [Hsel _] Hs.
  destruct (selectedElementId s) as [n|] eqn:E; [|done].
  destruct (Hsel n eq_refl) as (e & He & <-).
  cbn. apply bool_decide_eq_false_2. by apply Hnz.
Qed.

Lemma handle_ids_ok (ev : Event) (s : State) :
  (forall e, e ∈ elements s -> number e <> 0%Z) ->
  event_ok s ev -> ids_ok s -> ids_ok (handle ev s).
Proof.
  intros Hnz Hev Hok.
  pose proof (falsy_id_selected s Hnz Hok) as Hfalsy.
  destruct Hok as [Hsel Hlock].
  destruct ev; cbn in Hev |- *;
    unfold onClickOutside, onPointerOver, onPointerOut, onClick, ids_ok;
    repeat case_match; cbn; split; try done; try (intros n [= <-]; eauto);
    try (intros Hs; specialize (Hfalsy Hs); destruct hasMouse; cbn in *; congruence).
Qed.

Lemma reachable_ids_ok (s0 s : State) :
  (forall e, e ∈ elements s0 -> number e <> 0%Z) ->
  hoveredElementId s0 = None -> selectedElementId s0 = None ->
  reachable s0 s -> ids_ok s.
Proof.
  intros Hnz Hh Hs Hr. induction Hr as [|s ev Hr IH Hev].
  - split; [by rewrite Hs | done].
  - apply handle_ids_ok; [|done|done].
    by rewrite (reachable_elements _ _ Hr).
Qed.

(** C4. Provided no atomic number is zero, in every state the handlers reach
    from a state with nothing hovered and nothing selected: the hovered
    elements share one number and so do the selected ones, and when an
    element is selected nothing is hovered and no pointer-over changes the
    state. *)
Theorem selection_locks_hover (s0 s : State) :
  (forall e, e ∈ elements s0 -> number e <> 0%Z) ->
  hoveredElementId s0 = None -> selectedElementId s0 = None ->
  reachable s0 s ->
  (forall e1 e2, isHovered s e1 = true -> isHovered s e2 = true -> number e1 = number e2) /\
  (forall e1 e2, isSelected s e1 = true -> isSelected s e2 = true -> number e1 = number e2) /\
  (selectedElementId s <> None ->
     hoveredElementId s = None /\
     forall hasMouse e, onPointerOver hasMouse e s = s).
Proof.
  intros Hnz Hh Hs Hr.
  pose proof (reachable_ids_ok s0 s Hnz Hh Hs Hr) as Hok.
  assert (forall id e1 e2, is_id id e1 = true -> is_id id e2 = true -> number e1 = number e2)
    as Hone.
  { intros id e1 e2 H1 H2. apply bool_decide_eq_true in H1, H2. congruence. }
  split; [by apply Hone|]. split; [by apply Hone|].
  intros Hsel. split; [by apply Hok|].
  intros hasMouse e. unfold onPointerOver.
  rewrite falsy_id_selected; [by destruct hasMouse| |done|done].
  by rewrite (reachable_elements _ _ Hr).
Qed.

Lemma selection_locks_hover_witness :
  selectedElementId (handle (Click (sample 1 None)) (loaded [sample 1 None; sample 2 None]))
    = Some 1%Z /\
  hoveredElementId (handle (Click (sample 1 None)) (loaded [sample 1 None; sample 2 None]))
    = None /\
  onPointerOver true (sample 2 None)
    (handle (Click (sample 1 None)) (loaded [sample 1 None; sample 2 None]))
  = handle (Click (sample 1 None)) (loaded [sample 1 None; sample 2 None]).
Proof.
  assert (forall e, e ∈ elements (loaded [sample 1 None; sample 2 None]) -> number e <> 0%Z)
    as Hnz.
  { intros e He. cbn in He.
    apply elem_of_cons in He as [->|He]; [done|].
    apply elem_of_cons in He as [->|He]; [done|].
    by apply not_elem_of_nil in He. }
  assert (reachable (loaded [sample 1 None; sample 2 None])
            (handle (Click (sample 1 None)) (loaded [sample 1 None; sample 2 None])))
    as Hr.
  { apply reachable_step; [apply reachable_start|]. cbn. left. }
  destruct (selection_locks_hover _ _ Hnz eq_refl eq_refl Hr) as (_ & _ & Hlock).
  split; [reflexivity|].
  destruct Hlock as [Hh Hover]; [done|].
  split; [exact Hh | apply Hover].
Defined.

Lemma onClickOutside_ids (s : State) :
  selectedElementId (onClickOutside s) = selectedElementId s /\
  hoveredElementId (onClickOutside s) = hoveredElementId s.
Proof. unfold onClickOutside. by destruct (showDropdown s). Qed.

(** C8. A click on an element sets the selection to [null] if the element is
    selected and to its atomic number otherwise, and sets the hovered id to
    [null]; a second click on the same element, starting from a state where
    it was not selected, leaves the selection [null] (and starting from a
    state where it was selected, selects it again). *)
Theorem click_toggles (e : ElementData) (s : State) :
  selectedElementId (handle (Click e) s)
    = (if isSelected s e then None else Some (number e)) /\
  hoveredElementId (handle (Click e) s) = None /\
  (isSelected s e = false ->
     selectedElementId (handle (Click e) (handle (Click e) s)) = None) /\
  (isSelected s e = true ->
     selectedElementId (handle (Click e) (handle (Click e) s)) = Some (number e)).
Proof.
  assert (forall s', selectedElementId (handle (Click e) s')
                     = (if isSelected s' e then None else Some (number e))) as Hsel.
  { intros s'. cbn [handle]. by rewrite (proj1 (onClickOutside_ids _)). }
  split; [apply Hsel|]. split.
  - cbn [handle]. by rewrite (proj2 (onClickOutside_ids _)).
  - split; intros Hnot; rewrite Hsel.
    + assert (isSelected (handle (Click e) s) e = true) as ->; [|done].
      unfold isSelected, is_id. apply bool_decide_eq_true.
      by rewrite Hsel, Hnot.
    + assert (isSelected (handle (Click e) s) e = false) as ->; [|done].
      unfold isSelected, is_id. apply bool_decide_eq_false.
      by rewrite Hsel, Hnot.
Qed.

Lemma click_toggles_witness :
  isSelected (loaded [sample 1 None]) (sample 1 None) = false /\
  selectedElementId (handle (Click (sample 1 None)) (loaded [sample 1 None])) = Some 1%Z /\
  selectedElementId
    (handle (Click (sample 1 None)) (handle (Click (sample 1 None)) (loaded [sample 1 None])))
    = None.
Proof.
  split; [reflexivity|]. split; [reflexivity|].
  apply (click_toggles (sample 1 None) (loaded [sample 1 None])). reflexivity.
Defined.

(** ** Loading *)

(** C6. Each fetched record is stored with one field added or replaced,
    [cpk_hex], whose value is the record's ['cpk-hex']; every other field of
    the record is as it was fetched, and the records are stored in the order
    they were fetched. *)
Theorem mapElement_frame (data : list (gmap string jsval)) (status : Z) (s : State) :
  elements <$> fetchEffect (Resolved true status (inr data)) s
    = mapM asElementData (mappedElements data) /\
  List.length (mappedElements data) = List.length data /\
  forall (i : nat) (el : gmap string jsval),
    data !! i = Some el ->
    exists el' : gmap string jsval,
      mappedElements data !! i = Some el' /\
      get el' "cpk_hex" = get el "cpk-hex" /\
      forall key : string, key <> "cpk_hex" -> el' !! key = el !! key.
Proof.
  split; [cbn; by destruct (mapM asElementData (mappedElements data))|].
  split; [apply length_fmap|].
  intros i el Hi. exists (mapElement el).
  split; [unfold mappedElements; by rewrite list_lookup_fmap, Hi|].
  split.
  - unfold get at 1, mapElement. by rewrite lookup_insert_eq.
  - intros key Hkey. unfold mapElement. by rewrite lookup_insert_ne.
Qed.

Lemma mapElement_frame_witness :
  exists el' : gmap string jsval,
    mappedElements [ {[ "name" := JStr "Hydrogen"; "cpk-hex" := JStr "ffffff" ]} ] !! 0%nat
      = Some el' /\
    get el' "cpk_hex" = JStr "ffffff" /\
    el' !! "name" = Some (JStr "Hydrogen") /\
    el' !! "cpk-hex" = Some (JStr "ffffff").
Proof.
  destruct (mapElement_frame
              [ {[ "name" := JStr "Hydrogen"; "cpk-hex" := JStr "ffffff" ]} ] 200%Z initial)
    as (_ & _ & Hframe).
  destruct (Hframe 0%nat _ eq_refl) as (el' & Hel' & Hcpk & Hother).
  exists el'. split; [exact Hel'|]. split; [by rewrite Hcpk|].
  split; by rewrite Hother.
Defined.

(** C2, what the code does. A fetch that fails stores its message in [error]
    and clears [loading], and there it ends: no handler touches [elements],
    [loading] or [error] again. The message is not shown: what is rendered is
    the table with no element, whatever [error] holds. *)
Theorem fetch_failure_not_rendered `{CM : ColorManagement}
    (outcome : FetchOutcome) (message : string) :
  failure_message outcome = Some message ->
  exists s' : State,
    fetchEffect outcome initial = Some s' /\
    error s' = Some message /\
    loading s' = false /\
    elements s' = [] /\
    render s' = Table [] false "category" false None None /\
    (forall (s : State) (e : option string), render (setError e s) = render s) /\
    (forall (s : State) (ev : Event),
       elements (handle ev s) = elements s /\ loading (handle ev s) = loading s /\
       error (handle ev s) = error s).
Proof.
  intros Hfail. exists (setLoading false (setError (Some message) initial)).
  split.
  { destruct outcome as [msg|[] status [msg|data]]; cbn in Hfail |- *; congruence. }
  repeat split.
  all: destruct ev; cbn;
    unfold onClickOutside, onPointerOver, onPointerOut, onClick;
    repeat case_match; reflexivity.
Qed.

Lemma fetch_failure_not_rendered_witness :
  failure_message (Resolved false 404%Z (inl "")) = Some "HTTP error! status: 404" /\
  exists s' : State,
    fetchEffect (Resolved false 404%Z (inl "")) initial = Some s' /\
    error s' = Some "HTTP error! status: 404" /\
    render (CM := LegacyColorManagement) s' = Table [] false "category" false None None.
Proof.
  split; [reflexivity|].
  destruct (fetch_failure_not_rendered (CM := LegacyColorManagement)
              (Resolved false 404%Z (inl ""))
              "HTTP error! status: 404" eq_refl) as (s' & Hs' & He & _ & _ & Hr & _).
  exists s'. split; [exact Hs'|]. split; [exact He | exact Hr].
Defined.

(** * Further properties of the code *)

(** ** Arithmetic on rationals in canonical form *)

(** Order goals on [Qc] are sent to [Q], where [lra] decides them. *)
Ltac qc_to_q :=
  unfold Qcle, Qclt, Qcdiv, Qcminus, Qcplus, Qcmult, Qcopp, Q2Qc in *; cbn [this] in *;
  rewrite ?Qred_correct in *.
Ltac qc_lra := qc_to_q; lra.

Lemma Qc_ratio_mono (a b d : Qc) : 0 < d -> a <= b -> a / d <= b / d.
Proof.
  intros Hd Hab. unfold Qcdiv. apply Qcmult_le_compat_r; [done|].
  apply Qclt_le_weak. by apply Qcinv_pos.
Qed.

Lemma Qc_ratio_nonneg (a d : Qc) : 0 < d -> 0 <= a -> 0 <= a / d.
Proof.
  intros Hd Ha. replace 0 with (0 / d) by (unfold Qcdiv; ring).
  by apply Qc_ratio_mono.
Qed.

Lemma Qc_ratio_le_1 (a d : Qc) : 0 < d -> a <= d -> a / d <= 1.
Proof.
  intros Hd Ha. replace 1 with (d / d).
  - by apply Qc_ratio_mono.
  - unfold Qcdiv. apply Qcmult_inv_r. intros E. by apply (Qclt_not_eq _ _ Hd).
Qed.

(** ** The clamp, case by case *)

Lemma clamp_fin (x : Qc) :
  JS.Math_max (Fin 0) (JS.Math_min (Fin 1) (Fin x)) = Fin (clamp01 x).
Proof.
  unfold clamp01. destruct (decide (1 <= x)) as [H1|H1].
  - by apply clamp_ge_1.
  - destruct (decide (0 <= x)) as [H0|H0].
    + cbn. rewrite bool_decide_eq_false_2 by done. cbn.
      by rewrite bool_decide_eq_true_2.
    + apply clamp_nonpos. apply Qclt_le_weak. by apply Qcnot_le_lt.
Qed.

Lemma clamp01_mono (x y : Qc) : x <= y -> clamp01 x <= clamp01 y.
Proof. intros Hxy. unfold clamp01. repeat case_decide; qc_lra. Qed.

Lemma clamp01_bounds (x : Qc) : 0 <= clamp01 x /\ clamp01 x <= 1.
Proof. unfold clamp01. repeat case_decide; split; qc_lra. Qed.

Lemma clamp01_inside (x : Qc) : 0 <= x -> x <= 1 -> clamp01 x = x.
Proof.
  intros H0 H1. unfold clamp01. repeat case_decide; try done.
  by apply Qcle_antisym.
Qed.

Lemma interpolation_t_finite (q mn mx : Qc) :
  mn < mx ->
  interpolation_t (Fin q) (Fin mn) (Fin mx) = Fin (clamp01 ((q + - mn) / (mx + - mn))).
Proof.
  intros Hlt. unfold interpolation_t. rewrite ratio_finite by done. apply clamp_fin.
Qed.

(** ** [interpolateColor] inside and across the range *)

(** X1. For a range with [min < max], [t] does not decrease when the value
    grows: a greater value is never nearer to the low colour. *)
Theorem interpolation_t_monotone (v1 v2 : JS.number) (mn mx : Qc) :
  mn < mx -> JS.le v1 v2 ->
  JS.le (interpolation_t v1 (Fin mn) (Fin mx)) (interpolation_t v2 (Fin mn) (Fin mx)).
Proof.
  intros Hlt Hv.
  destruct v1 as [q1| | |], v2 as [q2| | |]; try discriminate Hv.
  - rewrite !interpolation_t_finite by done.
    apply bool_decide_eq_true in Hv. apply bool_decide_eq_true.
    apply clamp01_mono, Qc_ratio_mono; [by apply Qc_sub_pos|].
    by apply Qcplus_le_mono_r.
  - rewrite interpolation_t_finite by done.
    rewrite (interpolation_t_high PosInf mn mx) by done.
    apply bool_decide_eq_true, clamp01_bounds.
  - by rewrite (interpolation_t_high PosInf mn mx).
  - rewrite interpolation_t_finite by done.
    rewrite (interpolation_t_low NegInf mn mx) by done.
    apply bool_decide_eq_true, clamp01_bounds.
  - rewrite (interpolation_t_low NegInf mn mx), (interpolation_t_high PosInf mn mx) by done.
    apply bool_decide_eq_true, Qclt_le_weak, Qc_0_lt_1.
  - by rewrite (interpolation_t_low NegInf mn mx).
Qed.

Lemma interpolation_t_monotone_witness :
  JS.le (interpolation_t (Fin (Q2Qc 3%Q)) (Fin 0) (Fin (Q2Qc 10%Q)))
        (interpolation_t (Fin (Q2Qc 7%Q)) (Fin 0) (Fin (Q2Qc 10%Q))).
Proof.
  apply (interpolation_t_monotone (Fin (Q2Qc 3%Q)) (Fin (Q2Qc 7%Q)) 0 (Q2Qc 10%Q));
    reflexivity.
Defined.

Lemma channel_between (a b t : Qc) :
  0 <= t -> t <= 1 ->
  between (Fin a) (Fin b) (JS.add (Fin a) (JS.mul (JS.sub (Fin b) (Fin a)) (Fin t))).
Proof.
  intros H0 H1. unfold between, JS.le. cbn.
  destruct (Qclt_le_dec b a) as [Hba|Hab]; [right|left];
    split; apply bool_decide_eq_true; qc_to_q; nra.
Qed.

(** X2. For a range with [min < max] and a value that is a number, each
    channel of the colour [interpolateColor] prints lies between that channel
    of the tinted low colour and that channel of the high colour: the
    interpolation never leaves the segment between its two ends. *)
Theorem mixed_between `{CM : ColorManagement}
    (v : JS.number) (mn mx : Qc) (colorLow colorHigh : string) :
  v <> NaN -> mn < mx ->
  returns (interpolateColor v (Fin mn) (Fin mx) colorLow colorHigh)
          (Color_style (mixed v (Fin mn) (Fin mx) colorLow colorHigh)) /\
  between (r (mixedLow colorLow)) (r (Color_of_style colorHigh))
          (r (mixed v (Fin mn) (Fin mx) colorLow colorHigh)) /\
  between (g (mixedLow colorLow)) (g (Color_of_style colorHigh))
          (g (mixed v (Fin mn) (Fin mx) colorLow colorHigh)) /\
  between (b (mixedLow colorLow)) (b (Color_of_style colorHigh))
          (b (mixed v (Fin mn) (Fin mx) colorLow colorHigh)).
Proof.
  intros Hv Hlt. split; [apply interpolateColor_returns|].
  destruct (interpolation_t_bounds v mn mx Hv Hlt) as (t & Ht & H0 & H1).
  unfold mixed, mixedLow. rewrite Ht.
  destruct (Color_add_finite _ _ (Color_of_style_finite colorLow)
              (Color_of_style_finite "#111122")) as (x & y & z & ->).
  destruct (Color_of_style_finite colorHigh) as (x' & y' & z' & ->).
  unfold Color_lerp. cbn [r g b].
  repeat split; by apply channel_between.
Qed.

Lemma mixed_between_witness :
  between (Fin (Q2Qc (51 # 255))) (Fin (Q2Qc (233 # 255)))
    (r (mixed (CM := LegacyColorManagement)
          (Fin (Q2Qc 3%Q)) (Fin 0) (Fin (Q2Qc 10%Q)) "#222244" "#e94560")).
Proof.
  apply (mixed_between (CM := LegacyColorManagement)
           (Fin (Q2Qc 3%Q)) 0 (Q2Qc 10%Q) "#222244" "#e94560"); [discriminate | reflexivity].
Defined.

(** ** Ranges of width zero and ranges of nothing *)

Lemma Color_lerp_NaN (c k : Color) : Color_lerp c k NaN = mkColor NaN NaN NaN.
Proof.
  unfold Color_lerp.
  assert (forall x y : JS.number, JS.add x (JS.mul y NaN) = NaN) as H.
  { intros x y. by destruct x, y. }
  by rewrite !H.
Qed.

Lemma Color_style_NaN `{CM : ColorManagement} :
  Color_style (mkColor NaN NaN NaN) = "rgb(NaN,NaN,NaN)".
Proof. reflexivity. Qed.

Lemma interpolateColor_NaN `{CM : ColorManagement}
    (val min max : JS.number) (colorLow colorHigh : string) :
  interpolation_t val min max = NaN ->
  returns (interpolateColor val min max colorLow colorHigh) "rgb(NaN,NaN,NaN)".
Proof.
  intros Ht h. rewrite interpolateColor_run. unfold mixed.
  by rewrite Ht, Color_lerp_NaN.
Qed.

Lemma interpolation_t_zero_width (v m : Qc) :
  interpolation_t (Fin v) (Fin m) (Fin m) =
  match Qccompare v m with Lt => Fin 0 | Eq => NaN | Gt => Fin 1 end.
Proof.
  unfold interpolation_t, JS.sub. cbn [JS.neg JS.add].
  replace (m + - m) with (0 : Qc) by ring.
  cbn [JS.div]. rewrite decide_True by done.
  assert (Qccompare (v + - m) 0 = Qccompare v m) as ->.
  { destruct (Qccompare v m) eqn:E.
    - apply Qceq_alt in E as ->. replace (m + - m) with (0 : Qc) by ring. done.
    - apply Qclt_alt in E. apply (proj1 (Qclt_alt _ _)). qc_lra.
    - apply Qcgt_alt in E. apply (proj1 (Qcgt_alt _ _)). qc_lra. }
  by destruct (Qccompare v m).
Qed.

(** X3. On a range of width zero, [min = max = m], [interpolateColor]
    returns the tinted low colour for a value below [m], the high colour for
    a value above [m], and [rgb(NaN,NaN,NaN)] for the value [m] itself. *)
Theorem interpolateColor_zero_width `{CM : ColorManagement}
    (v m : Qc) (colorLow colorHigh : string) :
  returns (interpolateColor (Fin v) (Fin m) (Fin m) colorLow colorHigh)
          (match Qccompare v m with
           | Lt => Color_style (mixedLow colorLow)
           | Eq => "rgb(NaN,NaN,NaN)"
           | Gt => Color_style (Color_of_style colorHigh)
           end).
Proof.
  intros h. rewrite interpolateColor_run. unfold mixed.
  rewrite interpolation_t_zero_width.
  destruct (Qccompare v m).
  - by rewrite Color_lerp_NaN.
  - rewrite Color_lerp_0;
      auto using Color_add_finite, Color_of_style_finite.
  - rewrite Color_lerp_1;
      auto using Color_add_finite, Color_of_style_finite.
Qed.

(** ** Colours on the computed ranges *)

Lemma num_or_0_Some (q : Qc) : num_or_0 (Some q) = Fin q.
Proof.
  cbn. case_bool_decide as H; cbn; [by rewrite H | done].
Qed.

Lemma interpolated_value_Some (m : ColorMode.t) (e : ElementData) (v : Qc) :
  numeric m = true -> property_value m e = Some v -> interpolated_value m e = Fin v.
Proof.
  intros Hm Hv. unfold interpolated_value.
  destruct m; try discriminate Hm; rewrite ?Hv; [|by apply num_or_0_Some ..].
  cbn in Hv. congruence.
Qed.

Lemma interpolated_value_finite (m : ColorMode.t) (e : ElementData) :
  exists q : Qc, interpolated_value m e = Fin q.
Proof.
  unfold interpolated_value, num_or_0.
  destruct m; eauto; repeat case_match; eauto.
Qed.

Lemma present_values_elem (m : ColorMode.t) (es : list ElementData) (e : ElementData) (v : Qc) :
  e ∈ es -> property_value m e = Some v -> v ∈ present_values m es.
Proof. intros He Hv. apply list_elem_of_omap. eauto. Qed.

Lemma least_unique (a a' : Qc) (xs : list Qc) : least a xs -> least a' xs -> a = a'.
Proof. intros [Hin Hle] [Hin' Hle']. apply Qcle_antisym; auto. Qed.

Lemma greatest_unique (b b' : Qc) (xs : list Qc) : greatest b xs -> greatest b' xs -> b = b'.
Proof. intros [Hin Hle] [Hin' Hle']. apply Qcle_antisym; auto. Qed.

(** The range of a property that some record has, by its two ends. *)
Lemma ranges_lookup_ends (m : ColorMode.t) (es : list ElementData) (a b : Qc) :
  numeric m = true -> least a (present_values m es) -> greatest b (present_values m es) ->
  ranges es !! ColorMode.key m = Some (Fin a, Fin b).
Proof.
  intros Hm Ha Hb.
  assert (present_values m es <> []) as Hne.
  { intros E. destruct Ha as [Hin _]. rewrite E in Hin. by apply not_elem_of_nil in Hin. }
  assert (es <> []) as Hes by (intros ->; by apply Hne).
  rewrite ranges_lookup by done.
  destruct (Math_min_of_least _ Hne) as (a' & -> & Ha').
  destruct (Math_max_of_greatest _ Hne) as (b' & -> & Hb').
  by rewrite (least_unique _ _ _ Ha Ha'), (greatest_unique _ _ _ Hb Hb').
Qed.

(** X4. When no loaded record has a value for a numeric property, every
    block in that mode is coloured [rgb(NaN,NaN,NaN)]: the range is
    (Infinity, -Infinity) and [t] is [NaN] for every value. *)
Theorem color_without_values `{CM : ColorManagement}
    (m : ColorMode.t) (es : list ElementData) (e : ElementData) :
  es <> [] -> numeric m = true -> present_values m es = [] ->
  ranges es !! ColorMode.key m = Some (PosInf, NegInf) /\
  returns (color m e (ranges es)) (Str "rgb(NaN,NaN,NaN)").
Proof.
  intros Hes Hm Hnone.
  assert (ranges es !! ColorMode.key m = Some (PosInf, NegInf)) as Hr
    by by rewrite ranges_lookup, Hnone.
  split; [done|]. intros h.
  rewrite (color_numeric m e _ _ _ h Hm Hr).
  destruct (interpolated_value_finite m e) as [q ->].
  by apply as_value_run, interpolateColor_NaN.
Qed.

Lemma color_without_values_witness :
  returns (color (CM := LegacyColorManagement) ColorMode.density (sample 1 None)
             (ranges [sample 1 None; sample 2 None])) (Str "rgb(NaN,NaN,NaN)").
Proof.
  apply (color_without_values (CM := LegacyColorManagement) ColorMode.density
           [sample 1 None; sample 2 None] (sample 1 None)); done.
Defined.

(** X5. When every value the loaded records have for a numeric property is
    the same value [v], the range has width zero and each record with that
    value is coloured [rgb(NaN,NaN,NaN)]; so is the only block of a table of
    one element in atomic-mass mode. *)
Theorem color_single_value `{CM : ColorManagement}
    (m : ColorMode.t) (es : list ElementData) (e : ElementData) (v : Qc) :
  numeric m = true -> e ∈ es -> property_value m e = Some v ->
  (forall x, x ∈ present_values m es -> x = v) ->
  ranges es !! ColorMode.key m = Some (Fin v, Fin v) /\
  returns (color m e (ranges es)) (Str "rgb(NaN,NaN,NaN)").
Proof.
  intros Hm He Hv Hall.
  pose proof (present_values_elem m es e v He Hv) as Hin.
  assert (ranges es !! ColorMode.key m = Some (Fin v, Fin v)) as Hr.
  { apply ranges_lookup_ends; [done| |]; (split; [done|]);
      intros x Hx; rewrite (Hall x Hx); apply Qcle_refl. }
  split; [done|]. intros h.
  rewrite (color_numeric m e _ _ _ h Hm Hr), (interpolated_value_Some m e v Hm Hv).
  apply as_value_run, interpolateColor_NaN. rewrite interpolation_t_zero_width.
  by rewrite (proj1 (Qceq_alt v v) eq_refl).
Qed.

Lemma color_single_value_witness :
  returns (color (CM := LegacyColorManagement) ColorMode.atomic_mass (sample 1 None)
             (ranges [sample 1 None])) (Str "rgb(NaN,NaN,NaN)").
Proof.
  apply (color_single_value (CM := LegacyColorManagement) ColorMode.atomic_mass
           [sample 1 None] (sample 1 None) (Q2Qc 1%Q)).
  - reflexivity.
  - left.
  - reflexivity.
  - intros x Hx. cbn in Hx. apply list_elem_of_singleton in Hx. exact Hx.
Defined.

(** X6. When the values the loaded records have for a numeric property are
    not all the same, a record with the greatest value is coloured the high
    colour of the mode and a record with the least value the tinted low
    colour. *)
Theorem color_of_extremes `{CM : ColorManagement}
    (m : ColorMode.t) (es : list ElementData) (e : ElementData) (a b : Qc) :
  numeric m = true ->
  least a (present_values m es) -> greatest b (present_values m es) -> a < b ->
  (property_value m e = Some b ->
     returns (color m e (ranges es))
       (Str (Color_style (Color_of_style (colorHigh_of m))))) /\
  (property_value m e = Some a ->
     returns (color m e (ranges es)) (Str (Color_style (mixedLow "#222244")))).
Proof.
  intros Hm Ha Hb Hlt.
  pose proof (ranges_lookup_ends m es a b Hm Ha Hb) as Hr.
  split; intros Hv h;
    rewrite (color_numeric m e _ _ _ h Hm Hr), (interpolated_value_Some m e _ Hm Hv).
  - apply as_value_run, interpolateColor_at_max_aux; [|done].
    apply bool_decide_eq_true, Qcle_refl.
  - apply as_value_run, interpolateColor_at_min_aux; [|done].
    apply bool_decide_eq_true, Qcle_refl.
Qed.

Lemma color_of_extremes_witness :
  returns (color (CM := LegacyColorManagement) ColorMode.density (sample 1 (Some 5%Z))
             (ranges [sample 1 (Some 5%Z); sample 2 None; sample 3 (Some 3%Z)]))
          (Str "rgb(0,210,255)") /\
  returns (color (CM := LegacyColorManagement) ColorMode.density (sample 3 (Some 3%Z))
             (ranges [sample 1 (Some 5%Z); sample 2 None; sample 3 (Some 3%Z)]))
          (Str "rgb(51,51,102)").
Proof.
  assert (least (Q2Qc 3%Q)
            (present_values ColorMode.density
               [sample 1 (Some 5%Z); sample 2 None; sample 3 (Some 3%Z)])) as Ha.
  { split; [right; left|]. intros x Hx. cbn in Hx.
    apply elem_of_cons in Hx as [->|Hx]; [done|].
    apply list_elem_of_singleton in Hx as ->. done. }
  assert (greatest (Q2Qc 5%Q)
            (present_values ColorMode.density
               [sample 1 (Some 5%Z); sample 2 None; sample 3 (Some 3%Z)])) as Hb.
  { split; [left|]. intros x Hx. cbn in Hx.
    apply elem_of_cons in Hx as [->|Hx]; [done|].
    apply list_elem_of_singleton in Hx as ->. done. }
  split.
  - apply (proj1 (color_of_extremes (CM := LegacyColorManagement) ColorMode.density
                    _ (sample 1 (Some 5%Z)) _ _ eq_refl Ha Hb eq_refl)). reflexivity.
  - apply (proj2 (color_of_extremes (CM := LegacyColorManagement) ColorMode.density
                    _ (sample 3 (Some 3%Z)) _ _ eq_refl Ha Hb eq_refl)). reflexivity.
Defined.

(** X7. Every value of a loaded record lies inside the range computed for
    its property, so on a range of positive width the clamp of
    [interpolateColor] is idle: [t] is the plain ratio
    [(v - min) / (max - min)]. *)
Theorem loaded_value_in_range (m : ColorMode.t) (es : list ElementData)
    (e : ElementData) (v : Qc) :
  numeric m = true -> e ∈ es -> property_value m e = Some v ->
  exists lo hi : Qc,
    ranges es !! ColorMode.key m = Some (Fin lo, Fin hi) /\
    lo <= v /\ v <= hi /\
    (lo < hi ->
       interpolation_t (interpolated_value m e) (Fin lo) (Fin hi)
       = Fin ((v - lo) / (hi - lo))).
Proof.
  intros Hm He Hv.
  pose proof (present_values_elem m es e v He Hv) as Hin.
  assert (present_values m es <> []) as Hne.
  { intros E. rewrite E in Hin. by apply not_elem_of_nil in Hin. }
  destruct (Math_min_of_least _ Hne) as (lo & Hlo & Hleast).
  destruct (Math_max_of_greatest _ Hne) as (hi & Hhi & Hgreatest).
  exists lo, hi.
  split; [by apply ranges_lookup_ends|].
  pose proof (proj2 Hleast v Hin) as Hlv. pose proof (proj2 Hgreatest v Hin) as Hvh.
  split; [done|]. split; [done|].
  intros Hlt. rewrite (interpolated_value_Some m e v Hm Hv).
  rewrite interpolation_t_finite by done. f_equal.
  apply clamp01_inside.
  - apply Qc_ratio_nonneg; [by apply Qc_sub_pos | qc_lra].
  - apply Qc_ratio_le_1; [by apply Qc_sub_pos |]. by apply Qcplus_le_mono_r.
Qed.

Lemma loaded_value_in_range_witness :
  exists lo hi : Qc,
    ranges [sample 1 (Some 5%Z); sample 2 (Some 4%Z); sample 3 (Some 3%Z)] !! "density"
      = Some (Fin lo, Fin hi) /\
    lo <= Q2Qc 4%Q /\ Q2Qc 4%Q <= hi.
Proof.
  destruct (loaded_value_in_range ColorMode.density
              [sample 1 (Some 5%Z); sample 2 (Some 4%Z); sample 3 (Some 3%Z)]
              (sample 2 (Some 4%Z)) (Q2Qc 4%Q) eq_refl) as (lo & hi & Hr & Hl & Hh & _).
  - right; left.
  - reflexivity.
  - exists lo, hi. split; [exact Hr|]. split; [exact Hl | exact Hh].
Defined.

(** ** What is rendered *)

(** X8. Reading a numeric range from the empty object throws, so [color]
    throws in a numeric mode when [ranges] is [{}]; yet no block that is
    rendered is without a colour, since [ranges] is [{}] only when there is no
    block. *)
Theorem render_never_throws `{CM : ColorManagement} (s : State) (m : ColorMode.t)
    (e : ElementData) (h : heap) :
  (numeric m = true -> color m e (ranges []) h = None) /\
  Forall (fun blockView => is_Some (block_color blockView)) (view_blocks (render s)).
Proof.
  split.
  - intros Hm. by destruct m.
  - unfold render, renderWith. destruct (loading s); [constructor|].
    cbn [view_blocks]. apply Forall_fmap, Forall_forall. intros e' He'.
    cbn. unfold eval.
    destruct (color_returns (colorMode s) e' (elements s)) as [c Hc].
    { intros E. rewrite E in He'. by apply not_elem_of_nil in He'. }
    rewrite (Hc []). by eexists.
Qed.

Lemma propertyConfigs_lookup (m : ColorMode.t) :
  match propertyConfigs !! ColorMode.key m with
  | Some activeProperty =>
      numeric m = true /\ low activeProperty = "#1a1a2e" /\
      high activeProperty = colorHigh_of m
  | None => numeric m = false
  end.
Proof. by destruct m. Qed.

(** X9. The legend is rendered exactly in the numeric modes, and its high
    gradient end is the high colour the blocks are interpolated towards. On a
    table that is not empty it prints the two ends of the range the blocks are
    coloured with; on an empty table it has no number to print. *)
Theorem legend_matches_colors `{CM : ColorManagement} (s : State) :
  (is_Some (renderLegend s (ranges (elements s))) <-> numeric (colorMode s) = true) /\
  (forall legend : LegendView,
     renderLegend s (ranges (elements s)) = Some legend ->
     legend_high legend = colorHigh_of (colorMode s) /\
     legend_low legend = "#1a1a2e" /\
     (elements s = [] -> legend_min legend = None /\ legend_max legend = None) /\
     (elements s <> [] ->
        exists lo hi : JS.number,
          ranges (elements s) !! ColorMode.key (colorMode s) = Some (lo, hi) /\
          legend_min legend = Some lo /\ legend_max legend = Some hi /\
          forall (e : ElementData) (h : heap),
            color (colorMode s) e (ranges (elements s)) h =
            as_value (interpolateColor (interpolated_value (colorMode s) e) lo hi
                        "#222244" (colorHigh_of (colorMode s))) h)).
Proof.
  unfold renderLegend. pose proof (propertyConfigs_lookup (colorMode s)) as Hcfg.
  destruct (propertyConfigs !! ColorMode.key (colorMode s)) as [activeProperty|].
  - destruct Hcfg as (Hm & Hlow & Hhigh).
    split; [split; [done | by eexists]|].
    intros legend [= <-]. cbn. split; [done|]. split; [done|]. split.
    + intros ->. done.
    + intros Hes. rewrite (ranges_lookup _ _ Hes Hm). eexists _, _.
      split; [done|]. split; [done|]. split; [done|].
      intros e h. apply color_numeric; [done|]. by apply ranges_lookup.
  - split; [|by intros legend].
    split; [by intros [? ?] | intros Hm; congruence].
Qed.

(** ** The detail card and the highlighted block *)

Lemma handle_hover_ok (ev : Event) (s : State) :
  event_ok s ev -> hover_ok s -> hover_ok (handle ev s).
Proof.
  intros Hev Hok.
  destruct ev; cbn in Hev |- *;
    unfold onClickOutside, onPointerOver, onPointerOut, onClick, hover_ok;
    repeat case_match; cbn; try done; intros n [= <-]; eauto.
Qed.

Lemma reachable_hover_ok (s0 s : State) :
  hoveredElementId s0 = None -> reachable s0 s -> hover_ok s.
Proof.
  intros Hh Hr. induction Hr as [|s ev Hr IH Hev].
  - intros n. by rewrite Hh.
  - by apply handle_hover_ok.
Qed.

Lemma active_id_reachable (s0 s : State) :
  (forall e, e ∈ elements s0 -> number e <> 0%Z) ->
  hoveredElementId s0 = None -> selectedElementId s0 = None ->
  reachable s0 s ->
  forall e, isEffectivelyActive s e = true <-> activeElementId s = Some (number e).
Proof.
  intros Hnz Hh Hs Hr e.
  pose proof (reachable_ids_ok s0 s Hnz Hh Hs Hr) as [Hsel Hlock].
  pose proof (reachable_hover_ok s0 s Hh Hr) as Hhov.
  rewrite <- (reachable_elements _ _ Hr) in Hnz.
  unfold isEffectivelyActive, isSelected, isHovered, is_id, activeElementId, id_or.
  destruct (selectedElementId s) as [n|] eqn:Es.
  - rewrite (Hlock ltac:(done)). cbn.
    rewrite orb_false_r, bool_decide_eq_true. done.
  - destruct (hoveredElementId s) as [k|] eqn:Eh; cbn.
    + destruct (Hhov k Eh) as (e' & He' & <-).
      rewrite (bool_decide_eq_false_2 (number e' = 0%Z)) by by apply Hnz.
      rewrite (bool_decide_eq_false_2 (None = Some (number e))) by done.
      cbn [orb]. by rewrite bool_decide_eq_true.
    + rewrite !(bool_decide_eq_false_2 (None = Some (number e))) by done.
      split; [done | intros [=]].
Qed.

(** X10. In every state the handlers reach (no atomic number being zero), a
    block is highlighted exactly when its number is the active id, the element
    in the detail card is a loaded element whose block is highlighted, and
    whenever a block of the table is highlighted the card shows an element of
    that number. *)
Theorem details_match_highlight (s0 s : State) :
  (forall e, e ∈ elements s0 -> number e <> 0%Z) ->
  hoveredElementId s0 = None -> selectedElementId s0 = None ->
  reachable s0 s ->
  (forall e, isEffectivelyActive s e = true <-> activeElementId s = Some (number e)) /\
  (forall e, displayElement s = Some e ->
     e ∈ elements s /\ isEffectivelyActive s e = true) /\
  (forall e, e ∈ elements s -> isEffectivelyActive s e = true ->
     exists e', displayElement s = Some e' /\ number e' = number e).
Proof.
  intros Hnz Hh Hs Hr.
  pose proof (active_id_reachable s0 s Hnz Hh Hs Hr) as Hact.
  split; [done|]. split.
  - intros e He. unfold displayElement in He. apply find_some in He as [Hin Hid].
    split; [by apply list_elem_of_In|].
    apply Hact. unfold is_id in Hid. by apply bool_decide_eq_true in Hid.
  - intros e He Hon. apply Hact in Hon.
    unfold displayElement.
    destruct (find _ (elements s)) as [e'|] eqn:Ef.
    + exists e'. split; [done|]. apply find_some in Ef as [_ Hid].
      unfold is_id in Hid. apply bool_decide_eq_true in Hid. congruence.
    + pose proof (find_none _ _ Ef e (proj1 (list_elem_of_In _ _) He)) as Hno.
      unfold is_id in Hno. apply bool_decide_eq_false in Hno. done.
Qed.

Lemma details_match_highlight_witness :
  displayElement
    (handle (PointerOver true (sample 2 None)) (loaded [sample 1 None; sample 2 None]))
  = Some (sample 2 None) /\
  isEffectivelyActive
    (handle (PointerOver true (sample 2 None)) (loaded [sample 1 None; sample 2 None]))
    (sample 2 None) = true.
Proof.
  split; [reflexivity|].
  assert (forall e, e ∈ elements (loaded [sample 1 None; sample 2 None]) -> number e <> 0%Z)
    as Hnz.
  { intros e He. cbn in He.
    apply elem_of_cons in He as [->|He]; [done|].
    apply elem_of_cons in He as [->|He]; [done|].
    by apply not_elem_of_nil in He. }
  assert (reachable (loaded [sample 1 None; sample 2 None])
            (handle (PointerOver true (sample 2 None))
               (loaded [sample 1 None; sample 2 None]))) as Hr.
  { apply reachable_step; [apply reachable_start|]. cbn. right; left. }
  destruct (details_match_highlight _ _ Hnz eq_refl eq_refl Hr) as (_ & Hcard & _).
  exact (proj2 (Hcard (sample 2 None) eq_refl)).
Defined.

(** ** What the handlers change and what they leave *)

Lemma run_snoc (evs : list Event) (ev : Event) (s : State) :
  run (evs ++ [ev]) s = handle ev (run evs s).
Proof. unfold run. by rewrite foldl_app. Qed.

(** X11. On a device without a fine pointer nothing is ever hovered: after
    any run of events whose pointer-over and pointer-out come from blocks with
    [hasMouse = false], from a state with nothing hovered, the hovered id is
    still [null]. *)
Theorem touch_never_hovers (evs : list Event) (s : State) :
  hoveredElementId s = None -> Forall touch_event evs ->
  hoveredElementId (run evs s) = None.
Proof.
  intros Hh Hevs. revert s Hh.
  induction Hevs as [|ev evs Hev _ IH]; intros s Hh; [done|].
  cbn [run foldl]. apply IH.
  destruct ev; cbn in Hev |- *; subst;
    unfold onClickOutside, onPointerOver, onPointerOut, onClick;
    repeat case_match; done.
Qed.

Lemma touch_never_hovers_witness :
  hoveredElementId
    (run [PointerOver false (sample 1 None); Click (sample 1 None); PointerOut false;
          PointerOver false (sample 2 None); PointerMissed]
       (loaded [sample 1 None; sample 2 None])) = None.
Proof.
  apply touch_never_hovers; [reflexivity|].
  repeat constructor.
Defined.

Lemma handle_loading (ev : Event) (s : State) : loading (handle ev s) = loading s.
Proof.
  destruct ev; cbn;
    unfold onClickOutside, onPointerOver, onPointerOut, onClick;
    repeat case_match; reflexivity.
Qed.

(** X12. Only a click changes the selection (on a block, on empty space, on
    the reset button), only the reset button and a drop-down item change the
    colour mode, only a resize changes the mobile flag, and no handler changes
    the loaded elements, the loading flag or the error. *)
Theorem handlers_frame (ev : Event) (s : State) :
  ((forall e, ev <> Click e) -> ev <> PointerMissed -> ev <> ClickReset ->
     selectedElementId (handle ev s) = selectedElementId s) /\
  (ev <> ClickReset -> (forall item, ev <> PickMode item) ->
     colorMode (handle ev s) = colorMode s) /\
  ((forall w, ev <> Resize w) -> isMobile (handle ev s) = isMobile s) /\
  elements (handle ev s) = elements s /\
  loading (handle ev s) = loading s /\
  error (handle ev s) = error s.
Proof.
  repeat split; try intros H1; try intros H2; try intros H3;
    destruct ev; try congruence; cbn;
    unfold onClickOutside, onPointerOver, onPointerOut, onClick;
    repeat case_match; try reflexivity.
  all: exfalso; eauto.
Qed.

(** X13. The drop-down is closed after every click outside it: on a block,
    on empty space, on the reset button, anywhere else in the page, and on one
    of its own items; opening it twice closes it; pointer moves and resizes
    leave it as it is. *)
Theorem dropdown_closes (ev : Event) (s : State) :
  showDropdown (handle ev s) =
  match ev with
  | Click _ | PointerMissed | ClickReset | ClickOutside | PickMode _ => false
  | ToggleDropdown => negb (showDropdown s)
  | PointerOver _ _ | PointerOut _ | Resize _ => showDropdown s
  end.
Proof.
  destruct ev; cbn;
    unfold onClickOutside, onPointerOver, onPointerOut, onClick;
    repeat case_match; cbn in *; congruence.
Qed.

(** X14. After a click on the reset button of a loaded table the view is the
    table in category mode with every block at rest, the drop-down closed, no
    legend and no detail card, whatever was selected, hovered or chosen
    before; a second reset changes nothing. *)
Theorem reset_view `{CM : ColorManagement} (s : State) :
  loading s = false ->
  render (handle ClickReset s) =
  Table ((fun e => {| block_element := e;
                      block_color :=
                        Some (value_or (index categoryColors (category e)) "#444444");
                      block_active := false |}) <$> elements s)
        (isMobile s) "category" false None None /\
  handle ClickReset (handle ClickReset s) = handle ClickReset s.
Proof.
  intros Hl. split.
  - unfold render, renderWith.
    assert (loading (handle ClickReset s) = false) as -> by
      (cbn; unfold onClickOutside; by repeat case_match).
    assert (forall s', showDropdown (onClickOutside s') = false) as Hdrop.
    { intros s'. unfold onClickOutside. by destruct (showDropdown s') eqn:E. }
    cbn [handle]. rewrite Hdrop.
    assert (onClickOutside (resetScene s) = setShowDropdown false (resetScene s)) as ->.
    { unfold onClickOutside. destruct (showDropdown (resetScene s)) eqn:E; [done|].
      destruct s. cbn in *. by subst. }
    cbn. f_equal.
    induction (elements s) as [|e es IH]; [done|]. exact IH.
  - cbn [handle].
    unfold onClickOutside, resetScene.
    destruct s as [els hov sel cm ld err mob dd]. cbn. by destruct dd.
Qed.

Lemma reset_view_witness :
  render (CM := LegacyColorManagement)
    (handle ClickReset
       (handle (PickMode ColorMode.density)
          (handle (Click (sample 1 None)) (loaded [sample 1 None]))))
  = Table [ {| block_element := sample 1 None; block_color := Some (Str "#bf00ff");
               block_active := false |} ]
          false "category" false None None.
Proof.
  exact (proj1 (reset_view (CM := LegacyColorManagement)
                  (handle (PickMode ColorMode.density)
                     (handle (Click (sample 1 None)) (loaded [sample 1 None])))
                  eq_refl)).
Defined.

(** ** Loading, seen from the output *)

Lemma run_loading (evs : list Event) (s : State) : loading (run evs s) = loading s.
Proof.
  revert s. induction evs as [|ev evs IH]; intros s; [done|].
  cbn [run foldl]. fold (run evs (handle ev s)). rewrite IH.
  apply (handle_loading ev s).
Qed.

(** X15. The loading screen is what is rendered from the mount until the
    fetch settles, whatever the user does meanwhile, and every outcome of the
    fetch, success or failure, ends it. The fetch effect is defined on every
    failure and on every document whose records are [ElementData]. *)
Theorem loading_screen_until_fetch `{CM : ColorManagement}
    (evs : list Event) (outcome : FetchOutcome) :
  render (run evs initial) = LoadingScreen /\
  (forall s' : State,
     fetchEffect outcome (run evs initial) = Some s' -> render s' <> LoadingScreen) /\
  (is_Some (fetchEffect outcome (run evs initial)) <->
   match outcome with
   | Resolved true _ (inr data) => is_Some (mapM asElementData (mappedElements data))
   | _ => True
   end).
Proof.
  split; [|split].
  - unfold render, renderWith. by rewrite run_loading.
  - intros s' Hs'. unfold render, renderWith.
    assert (loading s' = false) as ->; [|done].
    destruct outcome as [msg|[] status [msg|data]]; cbn in Hs'; try by inversion Hs'.
    destruct (mapM asElementData (mappedElements data)); cbn in Hs'; by inversion Hs'.
  - destruct outcome as [msg|[] status [msg|data]]; cbn; try (split; by eauto).
    destruct (mapM asElementData (mappedElements data)); cbn; split; by eauto.
Qed.

(** A fetched record that is an [ElementData] once normalised came with its
    [ionization_energies], an array. *)
Lemma asElementData_ionization (el : gmap string jsval) (e : ElementData) :
  asElementData (mapElement el) = Some e ->
  exists xs : list jsval, el !! "ionization_energies" = Some (JArr xs).
Proof.
  unfold asElementData. intros H.
  destruct (mapElement el !! "ionization_energies") as [v|] eqn:Hv.
  - unfold mapElement in Hv. rewrite lookup_insert_ne in Hv by done.
    destruct v; try (exists xs; exact Hv);
      exfalso; repeat (simplify_option_eq || case_match); done.
  - exfalso. repeat (simplify_option_eq || case_match); done.
Qed.

(** X16. After a fetch that succeeds on a freshly mounted component with a
    document whose records are [ElementData], the table has one block per
    fetched record, in the order of the document, each at rest and coloured
    by its category; there is no legend, no detail card, and no error. Each
    such record came with its [ionization_energies]. *)
Theorem fetch_success_view `{CM : ColorManagement}
    (status : Z) (data : list (gmap string jsval)) (es : list ElementData) :
  mapM asElementData (mappedElements data) = Some es ->
  exists s' : State,
    fetchEffect (Resolved true status (inr data)) initial = Some s' /\
    render s' =
    Table ((fun e =>
              {| block_element := e;
                 block_color :=
                   Some (value_or (index categoryColors (category e)) "#444444");
                 block_active := false |}) <$> es)
          false "category" false None None /\
    error s' = None /\
    List.length es = List.length data /\
    forall (i : nat) (el : gmap string jsval),
      data !! i = Some el ->
      (exists e : ElementData, es !! i = Some e /\ asElementData (mapElement el) = Some e) /\
      (exists xs : list jsval, el !! "ionization_energies" = Some (JArr xs)).
Proof.
  intros Hes. eexists. split; [cbn; rewrite Hes; reflexivity|].
  split.
  { unfold render, renderWith. cbn. f_equal.
    clear Hes. induction es as [|e es IH]; [done|]. exact IH. }
  split; [done|].
  apply mapM_Some in Hes.
  split.
  { rewrite <- (Forall2_length _ _ _ Hes). apply length_fmap. }
  intros i el Hi.
  assert (mappedElements data !! i = Some (mapElement el)) as Hi'
    by (unfold mappedElements; by rewrite list_lookup_fmap, Hi).
  destruct (Forall2_lookup_l _ _ _ _ _ Hes Hi') as (e & He & Hconv).
  split; [by exists e | by apply (asElementData_ionization el e)].
Qed.

Lemma fetch_success_view_witness :
  mapM asElementData (mappedElements [hydrogen_json]) = Some [hydrogen] /\
  exists s' : State,
    fetchEffect (Resolved true 200%Z (inr [hydrogen_json])) initial = Some s' /\
    render (CM := LegacyColorManagement) s' =
    Table [ {| block_element := hydrogen; block_color := Some (Str "#00f2ff");
               block_active := false |} ]
          false "category" false None None.
Proof.
  split; [reflexivity|].
  destruct (fetch_success_view (CM := LegacyColorManagement) 200%Z
              [hydrogen_json] [hydrogen] eq_refl) as (s' & Hs' & Hr & _).
  exists s'. split; [exact Hs' | exact Hr].
Defined.

(** X17. Normalising a record twice is normalising it once: [mapElement] is
    idempotent, and so is the mapping of the whole document. *)
Theorem mapElement_idempotent (el : gmap string jsval) (data : list (gmap string jsval)) :
  mapElement (mapElement el) = mapElement el /\
  mappedElements (mappedElements data) = mappedElements data.
Proof.
  assert (forall el', mapElement (mapElement el') = mapElement el') as Hidem.
  { intros el'. unfold mapElement at 1. unfold get.
    replace (mapElement el' !! "cpk-hex") with (el' !! "cpk-hex")
      by (unfold mapElement; by rewrite lookup_insert_ne).
    unfold mapElement, get. by rewrite insert_insert_eq. }
  split; [apply Hidem|].
  unfold mappedElements. rewrite <- list_fmap_compose.
  apply list_fmap_ext. intros _ el' _. apply Hidem.
Qed.

(** X18. A fetched record without a ['cpk-hex'] field is stored with
    [cpk_hex] set to [undefined], also when it came with a [cpk_hex] of its
    own, which is lost; the stored record has the fields of the fetched one
    and [cpk_hex]. *)
Theorem mapElement_missing_source (el : gmap string jsval) :
  el !! "cpk-hex" = None ->
  mapElement el !! "cpk_hex" = Some JUndefined /\
  dom (mapElement el) = {["cpk_hex"]} ∪ dom el.
Proof.
  intros Hnone. unfold mapElement, get. rewrite Hnone. cbn.
  split; [apply lookup_insert_eq | apply dom_insert_L].
Qed.

Lemma mapElement_missing_source_witness :
  mapElement {[ "name" := JStr "Hydrogen"; "cpk_hex" := JStr "ffffff" ]} !! "cpk_hex"
  = Some JUndefined.
Proof.
  apply (mapElement_missing_source
           {[ "name" := JStr "Hydrogen"; "cpk_hex" := JStr "ffffff" ]}).
  reflexivity.
Defined.

(** ** Placement and animation of the blocks *)

Lemma Qc_of_Z_lt (z1 z2 : Z) : (z1 < z2)%Z -> Qc_of_Z z1 + 1 <= Qc_of_Z z2.
Proof.
  intros H. assert (z1 + 1 <= z2)%Z as H' by lia.
  rewrite Zle_Qle in H'. rewrite inject_Z_plus in H'.
  change (inject_Z 1) with 1%Q in H'. unfold Qc_of_Z. qc_lra.
Qed.

Lemma MathUtils_lerp_between (x lo hi target : Qc) :
  lo <= x -> x <= hi -> lo <= target -> target <= hi ->
  lo <= MathUtils_lerp x target (Q2Qc 0.1%Q) /\
  MathUtils_lerp x target (Q2Qc 0.1%Q) <= hi.
Proof. intros. unfold MathUtils_lerp. split; qc_lra. Qed.

Lemma useFrame_keeps_bounds (active : bool) (mesh : Mesh) :
  at_rest_or_raised mesh ->
  exists mesh', useFrame active (Some mesh) = Some mesh' /\ at_rest_or_raised mesh'.
Proof.
  intros (Hz0 & Hz1 & Hs0 & Hs1). eexists. split; [reflexivity|].
  unfold at_rest_or_raised. cbn [position_z scale].
  assert (0 <= targetZ active /\ targetZ active <= Q2Qc 0.6%Q) as [? ?]
    by (destruct active; cbn; split; qc_lra).
  assert (1 <= targetScale active /\ targetScale active <= Q2Qc 1.15%Q) as [? ?]
    by (destruct active; cbn; split; qc_lra).
  destruct (MathUtils_lerp_between (position_z mesh) 0 (Q2Qc 0.6%Q) (targetZ active));
    try done.
  destruct (MathUtils_lerp_between (scale mesh) 1 (Q2Qc 1.15%Q) (targetScale active));
    done.
Qed.

Lemma animate_keeps_bounds (actives : list bool) (mesh : Mesh) :
  at_rest_or_raised mesh ->
  exists mesh', animate actives (Some mesh) = Some mesh' /\ at_rest_or_raised mesh'.
Proof.
  revert mesh. induction actives as [|active actives IH]; intros mesh Hb.
  - by exists mesh.
  - destruct (useFrame_keeps_bounds active mesh Hb) as (mesh1 & Hf & Hb1).
    destruct (IH mesh1 Hb1) as (mesh' & Ha & Hb').
    exists mesh'. split; [|done]. unfold animate in *. cbn [foldl]. by rewrite Hf.
Qed.

Lemma mounted_bounds : at_rest_or_raised mounted.
Proof. unfold at_rest_or_raised, mounted. cbn. repeat split; qc_lra. Qed.

(** X19. Whatever blocks were active at which frames since the mesh was
    mounted, its lift stays within [0, 0.6] and its scale within [1, 1.15];
    and a ref that holds no mesh is left alone. *)
Theorem animation_bounds (actives : list bool) :
  (exists mesh, animate actives (Some mounted) = Some mesh /\ at_rest_or_raised mesh) /\
  animate actives None = None.
Proof.
  split; [apply animate_keeps_bounds, mounted_bounds|].
  induction actives as [|active actives IH]; [done | exact IH].
Qed.

(** X20. While a block stays active, or stays inactive, each frame takes its
    lift and its scale a tenth of the way to their targets: after [n] frames
    what is left of the way is [(9/10)^n] of what it was, so the mesh nears
    its target in every frame and never passes it. *)
Theorem animation_converges (n : nat) (active : bool) (mesh : Mesh) :
  exists mesh',
    animate (replicate n active) (Some mesh) = Some mesh' /\
    position_z mesh' - targetZ active
      = Qcpower (Q2Qc 0.9%Q) n * (position_z mesh - targetZ active) /\
    scale mesh' - targetScale active
      = Qcpower (Q2Qc 0.9%Q) n * (scale mesh - targetScale active).
Proof.
  revert mesh. induction n as [|n IH]; intros mesh.
  - exists mesh. split; [done|]. cbn. split; ring.
  - cbn [replicate]. unfold animate in *. cbn [foldl useFrame].
    destruct (IH {| position_z := MathUtils_lerp (position_z mesh) (targetZ active) (Q2Qc 0.1%Q);
                    scale := MathUtils_lerp (scale mesh) (targetScale active) (Q2Qc 0.1%Q) |})
      as (mesh' & Ha & Hz & Hs).
    exists mesh'. split; [exact Ha|].
    cbn [position_z scale] in Hz, Hs. rewrite Hz, Hs.
    assert (forall x t : Qc,
              MathUtils_lerp x t (Q2Qc 0.1%Q) - t = Q2Qc 0.9%Q * (x - t)) as Hstep.
    { intros x t. unfold MathUtils_lerp.
      replace (Q2Qc 0.9%Q) with (1 - Q2Qc 0.1%Q) by (apply Qc_is_canon; reflexivity).
      ring. }
    rewrite !Hstep. cbn [Qcpower]. split; ring.
Qed.

(** X21. Two blocks in different cells of the grid never overlap, whatever
    their animations have been: on one of the two axes of the grid their
    squares, scaled as the animations left them, are apart. *)
Theorem blocks_never_overlap (e1 e2 : ElementData) (actives1 actives2 : list bool) :
  (xpos e1, ypos e1) <> (xpos e2, ypos e2) ->
  exists mesh1 mesh2 : Mesh,
    animate actives1 (Some mounted) = Some mesh1 /\
    animate actives2 (Some mounted) = Some mesh2 /\
    ((position e1).1.1 + halfSide (scale mesh1) < (position e2).1.1 - halfSide (scale mesh2) \/
     (position e2).1.1 + halfSide (scale mesh2) < (position e1).1.1 - halfSide (scale mesh1) \/
     (position e1).1.2 + halfSide (scale mesh1) < (position e2).1.2 - halfSide (scale mesh2) \/
     (position e2).1.2 + halfSide (scale mesh2) < (position e1).1.2 - halfSide (scale mesh1)).
Proof.
  intros Hcell.
  destruct (animate_keeps_bounds actives1 mounted mounted_bounds) as (mesh1 & Ha1 & Hb1).
  destruct (animate_keeps_bounds actives2 mounted mounted_bounds) as (mesh2 & Ha2 & Hb2).
  exists mesh1, mesh2. split; [done|]. split; [done|].
  destruct Hb1 as (_ & _ & Hs1 & Hs1'). destruct Hb2 as (_ & _ & Hs2 & Hs2').
  unfold position, halfSide, boxSize. cbn [fst snd].
  destruct (Z.lt_total (xpos e1) (xpos e2)) as [Hx|[Hx|Hx]].
  - left. pose proof (Qc_of_Z_lt _ _ Hx). qc_lra.
  - destruct (Z.lt_total (ypos e1) (ypos e2)) as [Hy|[Hy|Hy]].
    + right; right; right. pose proof (Qc_of_Z_lt _ _ Hy). qc_lra.
    + exfalso. apply Hcell. congruence.
    + right; right; left. pose proof (Qc_of_Z_lt _ _ Hy). qc_lra.
  - right; left. pose proof (Qc_of_Z_lt _ _ Hx). qc_lra.
Qed.

Lemma blocks_never_overlap_witness :
  exists mesh1 mesh2 : Mesh,
    animate [true; true; false] (Some mounted) = Some mesh1 /\
    animate [false; true] (Some mounted) = Some mesh2 /\
    ((position (sample 1 None)).1.1 + halfSide (scale mesh1)
       < (position (sample 2 None)).1.1 - halfSide (scale mesh2) \/
     (position (sample 2 None)).1.1 + halfSide (scale mesh2)
       < (position (sample 1 None)).1.1 - halfSide (scale mesh1) \/
     (position (sample 1 None)).1.2 + halfSide (scale mesh1)
       < (position (sample 2 None)).1.2 - halfSide (scale mesh2) \/
     (position (sample 2 None)).1.2 + halfSide (scale mesh2)
       < (position (sample 1 None)).1.2 - halfSide (scale mesh1)).
Proof.
  apply (blocks_never_overlap (sample 1 None) (sample 2 None)
           [true; true; false] [false; true]).
  cbn. congruence.
Defined.

(** ** The detail card *)

Lemma position_x_pos (e : ElementData) : 0 < (position e).1.1 <-> (9 < xpos e)%Z.
Proof.
  unfold position. cbn [fst]. split.
  - intros Hpos. destruct (Z.lt_ge_cases 9 (xpos e)) as [H|H]; [done|exfalso].
    rewrite Zle_Qle in H. unfold Qc_of_Z in Hpos. qc_lra.
  - intros H. pose proof (Qc_of_Z_lt _ _ H). unfold Qc_of_Z in *. qc_lra.
Qed.

(** X22. On a desktop the detail card is anchored on the side opposite the
    block it describes, and slides in from that side: a block right of the
    centre of the table has the card 40px from the left edge, entering from
    the left, and any other block has it 40px from the right edge, entering
    from the right. On a mobile it spans the width and does not slide
    sideways. *)
Theorem card_opposite_block (e : ElementData) :
  (cardLeft false e, cardRight false e, cardInitialX false e)
    = (if decide (0 < (position e).1.1)
       then ("40px", "auto", (-20)%Z) else ("auto", "40px", 20%Z)) /\
  (cardLeft true e, cardRight true e, cardInitialX true e) = ("0", "0", 0%Z).
Proof.
  split; [|done].
  unfold cardLeft, cardRight, cardInitialX. cbn [negb andb].
  destruct (decide (0 < (position e).1.1)) as [Hpos|Hpos].
  - apply position_x_pos in Hpos.
    rewrite (bool_decide_eq_true_2 (9 < xpos e)%Z) by done.
    rewrite (bool_decide_eq_false_2 (xpos e <= 9)%Z) by lia. done.
  - assert (xpos e <= 9)%Z as Hle.
    { destruct (Z.lt_ge_cases 9 (xpos e)) as [H|H]; [|done].
      exfalso. by apply Hpos, position_x_pos. }
    rewrite (bool_decide_eq_false_2 (9 < xpos e)%Z) by lia.
    rewrite (bool_decide_eq_true_2 (xpos e <= 9)%Z) by done. done.
Qed.

(** ** The drop-down and its label *)

(** X23. [str.replace(c, d)] replaces one occurrence only: the result is as
    long as [str], holds one occurrence of [c] less when [c] is not [d], and
    is [str] itself when [c] does not occur. No colour mode holds two
    underscores, so no label of the drop-down button shows one. *)
Theorem replace_first_once (c d : ascii) (str : string) (m : ColorMode.t) :
  c <> d ->
  String.length (replace_first c d str) = String.length str /\
  occurrences c (replace_first c d str) = pred (occurrences c str) /\
  (occurrences c str = 0%nat -> replace_first c d str = str) /\
  occurrences "_" (modeLabel m) = 0%nat.
Proof.
  intros Hcd. split; [|split; [|split]].
  - induction str as [|x rest IH]; [done|]. cbn.
    destruct (Ascii.eqb x c); cbn; [done | by rewrite IH].
  - induction str as [|x rest IH]; [done|]. cbn.
    destruct (Ascii.eqb x c) eqn:E; cbn.
    + assert (Ascii.eqb d c = false) as ->; [|done].
      apply Ascii.eqb_neq. congruence.
    + by rewrite E, IH.
  - induction str as [|x rest IH]; [done|]. cbn.
    destruct (Ascii.eqb x c); [done|]. cbn. intros H. by rewrite IH.
  - by destruct m.
Qed.

Lemma replace_first_once_witness :
  replace_first "_" " " "first_ionization_energy" = "first ionization_energy" /\
  occurrences "_" (replace_first "_" " " "first_ionization_energy") = 1%nat.
Proof.
  split; [reflexivity|].
  rewrite (proj1 (proj2 (replace_first_once "_" " " "first_ionization_energy"
                           ColorMode.category ltac:(discriminate)))).
  reflexivity.
Defined.

(** X24. The items of the drop-down are the colour modes: every item is the
    key of a mode, so reading it as a [ColorMode] is sound, every mode is
    listed once, so one item is marked as chosen, and the modes listed under
    "Periodic Trends" are the numeric ones, those that have a legend. *)
Theorem dropdown_items_are_modes (m : ColorMode.t) :
  List.length (filter (fun item => item = ColorMode.key m) dropdownItems) = 1%nat /\
  (forall item, item ∈ dropdownItems -> exists m', ColorMode.key m' = item) /\
  (forall label items, (label, items) ∈ dropdownGroups ->
     ColorMode.key m ∈ items ->
     (numeric m = true <-> label = "Periodic Trends")).
Proof.
  split; [by destruct m|]. split.
  - intros item Hitem. unfold dropdownItems in Hitem. cbn in Hitem.
    repeat (apply elem_of_cons in Hitem as [->|Hitem];
            [ first [ by exists ColorMode.category | by exists ColorMode.phase
                    | by exists ColorMode.block | by exists ColorMode.cpk
                    | by exists ColorMode.atomic_mass | by exists ColorMode.density
                    | by exists ColorMode.electronegativity | by exists ColorMode.ionization
                    | by exists ColorMode.electron_affinity ] |]).
    by apply not_elem_of_nil in Hitem.
  - intros label items Hgroup Hin. unfold dropdownGroups in Hgroup.
    apply elem_of_cons in Hgroup as [[= -> ->]|Hgroup];
      [|apply list_elem_of_singleton in Hgroup as [= -> ->]];
      destruct m; cbn [numeric ColorMode.key] in *;
      first [ by split
            | exfalso;
              repeat (apply elem_of_cons in Hin as [Hin|Hin]; [discriminate Hin|]);
              by apply not_elem_of_nil in Hin ].
Qed.
